(** * ejs.Document: the document parameter builder of elastic.js

    A shallow embedding of [src/index/Document.js].  The closure returned by
    [ejs.Document(index, type, id)] owns four variables ([index], [type],
    [id] and the option object [params]); every method of the returned
    object reads or writes them, may throw, and the four dispatch methods
    hand exactly one request to the injected client [ejs.client].  Methods
    are therefore computations in a small state-and-exception monad that
    also records the requests given to the client.

    Values are modelled by their content: that a stored sequence or object
    is the caller's own (the same reference) is not represented.

    The file has two parts: the definitions (the language fragment, the
    builder, and the vocabulary of the statements), then the lemmas and
    the theorems. *)

From Stdlib Require Import List String Ascii ZArith Bool Lia DecimalString.
Import ListNotations.
Open Scope string_scope.

(** ** JavaScript values *)

(** The fragment of JavaScript values the builder stores and serialises.
    Numbers are the integral ones (a [Z]), printed in decimal as the
    language does below 10^21; a string is its sequence of UTF-8 bytes; an
    object is the list of its own enumerable properties in enumeration
    order, which for the property names used here is insertion order. *)
#[warnings="-register-all"]
Inductive value : Type :=
| VUndefined
| VNull
| VBool (b : bool)
| VNum (n : Z)
| VStr (s : string)
| VArr (elems : list value)
| VObj (props : list (string * value)).

Definition obj : Type := list (string * value).
Bind Scope list_scope with obj.

(** [v == null] *)
Definition is_nullish (v : value) : bool :=
  match v with
  | VUndefined | VNull => true
  | _ => false
  end.

(** Property read [o[k]]: [undefined] when [o] has no such property. *)
Fixpoint obj_get (o : obj) (k : string) : value :=
  match o with
  | [] => VUndefined
  | (k', v) :: o' => if String.eqb k' k then v else obj_get o' k
  end.

(** Property write [o[k] = v]: an existing property keeps its place in the
    enumeration order, a new one goes last. *)
Fixpoint obj_set (o : obj) (k : string) (v : value) : obj :=
  match o with
  | [] => [(k, v)]
  | (k', v') :: o' =>
      if String.eqb k' k then (k', v) :: o' else (k', v') :: obj_set o' k v
  end.

Definition keys (o : obj) : list string := map fst o.

(** ** Built-ins of the language used by the builder *)

Module JS.

(** [Array.prototype.join] on already converted elements. *)
Fixpoint join (sep : string) (parts : list string) : string :=
  match parts with
  | [] => ""
  | [p] => p
  | p :: rest => p ++ sep ++ join sep rest
  end.

Definition string_of_Z (n : Z) : string :=
  NilZero.string_of_int (Z.to_int n).

(** [ToString]: an array converts as [join(",")], where [null] and
    [undefined] elements give the empty string; every plain object
    converts to the same fixed text. *)
Fixpoint toStr (v : value) : string :=
  match v with
  | VUndefined => "undefined"
  | VNull => "null"
  | VBool true => "true"
  | VBool false => "false"
  | VNum n => string_of_Z n
  | VStr s => s
  | VArr l =>
      join "," (map (fun e => if is_nullish e then "" else toStr e) l)
  | VObj _ => "[object Object]"
  end.

(** [a.join()] with the default separator; only arrays have the
    method, and it is only called on them. *)
Definition array_join (a : value) : string :=
  match a with
  | VArr l =>
      join "," (map (fun e => if is_nullish e then "" else toStr e) l)
  | _ => ""
  end.

Definition lower_ascii (c : ascii) : ascii :=
  let n := nat_of_ascii c in
  if (65 <=? n)%nat && (n <=? 90)%nat then ascii_of_nat (n + 32) else c.

(** [String.prototype.toLowerCase]; bytes outside A-Z are kept, which
    agrees with the built-in on every string whose lower-case form is
    one of the option names compared against below. *)
Fixpoint toLowerCase (s : string) : string :=
  match s with
  | EmptyString => EmptyString
  | String c s' => String (lower_ascii c) (toLowerCase s')
  end.

Definition hex_digit (upper : bool) (n : nat) : ascii :=
  if (n <? 10)%nat then ascii_of_nat (48 + n)
  else ascii_of_nat ((if upper then 55 else 87) + n).

(** The characters [encodeURIComponent] leaves alone:
    A-Z a-z 0-9 - _ . ! ~ * ' ( ) *)
Definition uri_unreserved (c : ascii) : bool :=
  let n := nat_of_ascii c in
  ((65 <=? n) && (n <=? 90) || (97 <=? n) && (n <=? 122)
   || (48 <=? n) && (n <=? 57)
   || existsb (Nat.eqb n) [45; 95; 46; 33; 126; 42; 39; 40; 41])%nat.

Fixpoint percent_encode (s : string) : string :=
  match s with
  | EmptyString => EmptyString
  | String c s' =>
      if uri_unreserved c then String c (percent_encode s')
      else
        let n := nat_of_ascii c in
        String "%" (String (hex_digit true (n / 16))
                      (String (hex_digit true (n mod 16))
                         (percent_encode s')))
  end.

(** [encodeURIComponent(v)]: [ToString] of the argument, then each byte
    outside the unreserved set as [%XX]. *)
Definition encodeURIComponent (v : value) : string :=
  percent_encode (toStr v).

(** JSON string quoting. *)
Definition json_escape_char (c : ascii) : string :=
  let n := nat_of_ascii c in
  if Nat.eqb n 34 then String "\" (String c EmptyString)
  else if Nat.eqb n 92 then "\\"
  else if Nat.eqb n 8 then "\b"
  else if Nat.eqb n 12 then "\f"
  else if Nat.eqb n 10 then "\n"
  else if Nat.eqb n 13 then "\r"
  else if Nat.eqb n 9 then "\t"
  else if (n <? 32)%nat then
    "\u00" ++ String (hex_digit false (n / 16))
                (String (hex_digit false (n mod 16)) EmptyString)
  else String c EmptyString.

Fixpoint json_escape (s : string) : string :=
  match s with
  | EmptyString => EmptyString
  | String c s' => json_escape_char c ++ json_escape s'
  end.

Definition json_quote (s : string) : string :=
  String (ascii_of_nat 34)
    (json_escape s ++ String (ascii_of_nat 34) EmptyString).

(** [JSON.stringify] on the value fragment: [undefined] has no JSON
    text, is left out of objects and becomes [null] inside arrays. *)
Fixpoint stringify (v : value) : option string :=
  match v with
  | VUndefined => None
  | VNull => Some "null"
  | VBool true => Some "true"
  | VBool false => Some "false"
  | VNum n => Some (string_of_Z n)
  | VStr s => Some (json_quote s)
  | VArr l =>
      Some ("[" ++ join ","
              (map (fun e => match stringify e with
                             | Some s => s
                             | None => "null"
                             end) l) ++ "]")
  | VObj ps =>
      Some ("{" ++ join ","
              ((fix members (ps : list (string * value)) : list string :=
                  match ps with
                  | [] => []
                  | (k, e) :: ps' =>
                      match stringify e with
                      | Some s => (json_quote k ++ ":" ++ s) :: members ps'
                      | None => members ps'
                      end
                  end) ps) ++ "}")
  end.

Definition JSON_stringify (v : value) : value :=
  match stringify v with
  | Some s => VStr s
  | None => VUndefined
  end.

End JS.

(** ** Helpers of the library's utility module *)

(** Modelled from the spec: [isString], defined in the library's utility
    file, which is not part of the source at hand; the spec calls the
    accepted shape a string. *)
Definition isString (v : value) : bool :=
  match v with VStr _ => true | _ => false end.

(** Modelled from the spec: [isArray], from the same utility file; the
    spec calls the accepted shape a sequence. *)
Definition isArray (v : value) : bool :=
  match v with VArr _ => true | _ => false end.

(** Modelled from the spec: [isObject], from the same utility file; the
    spec calls the accepted shape a key-value mapping. *)
Definition isObject (v : value) : bool :=
  match v with VObj _ => true | _ => false end.

(** Modelled from the spec: [has], from the same utility file, the
    own-property test that guards both [for .. in] loops. *)
Definition has (o : obj) (k : string) : bool :=
  existsb (String.eqb k) (keys o).

(** ** Exceptions, requests and the method monad *)

Inductive exn : Type :=
| Error (msg : string)
| TypeError (msg : string).

Inductive verb : Type := GET | POST | PUT | DELETE.

(** The completion callback a caller hands to a dispatch method.  The
    builder only passes it on, so a tag telling callbacks apart is all
    that is kept of it; [NoCallback] is the argument left out. *)
Inductive callback : Type :=
| NoCallback
| Callback (tag : nat).

(** One call [ejs.client.get/post/put/del(url, data, fnCallBack)]. *)
Record request : Type := mkRequest
  { req_verb : verb;
    req_url : string;
    req_data : value;
    req_callback : callback }.

(** The injected client: what it answers to a request.  [ejs.client] is
    [None] while no client has been set. *)
Definition Client : Type := request -> value.

(** The variables captured by the closure of one document object. *)
Record builder : Type := mkBuilder
  { var_index : value;
    var_type : value;
    var_id : value;
    var_params : obj }.

Inductive completion (A : Type) : Type :=
| Normal (a : A)
| Throw (e : exn).
Arguments Normal {A} a.
Arguments Throw {A} e.

Record outcome (A : Type) : Type := mkOutcome
  { result : completion A;
    final : builder;
    sent : list request }.
Arguments mkOutcome {A}.
Arguments result {A}.
Arguments final {A}.
Arguments sent {A}.

Definition M (A : Type) : Type := builder -> outcome A.

Definition pure {A} (a : A) : M A :=
  fun b => mkOutcome (Normal a) b [].

Definition throw {A} (e : exn) : M A :=
  fun b => mkOutcome (Throw e) b [].

(** The requests of an earlier step go in front of those of a later one. *)
Definition after {A} (earlier : list request) (o : outcome A) : outcome A :=
  match earlier with
  | [] => o
  | _ => mkOutcome (result o) (final o) (earlier ++ sent o)
  end.

Definition bind {A B} (m : M A) (k : A -> M B) : M B :=
  fun b =>
    match m b with
    | mkOutcome (Normal a) b' s => after s (k a b')
    | mkOutcome (Throw e) b' s => mkOutcome (Throw e) b' s
    end.

Declare Scope js_scope.
Delimit Scope js_scope with js.
Notation "x <- m ;; k" := (bind m (fun x => k))
  (at level 61, m at next level, right associativity) : js_scope.
Notation "m ;; k" := (bind m (fun _ => k))
  (at level 61, right associativity) : js_scope.
Open Scope js_scope.

Definition read {A} (f : builder -> A) : M A :=
  fun b => mkOutcome (Normal (f b)) b [].

Definition write (f : builder -> builder) : M unit :=
  fun b => mkOutcome (Normal tt) (f b) [].

Definition when (c : bool) (m : M unit) : M unit :=
  if c then m else pure tt.

(** [params[k]] and [params[k] = v] on the closure's option object. *)
Definition get_param (k : string) : M value :=
  read (fun b => obj_get (var_params b) k).

Definition set_param (k : string) (v : value) : M unit :=
  write (fun b => mkBuilder (var_index b) (var_type b) (var_id b)
                    (obj_set (var_params b) k v)).

(** [params[k].push(v)]; a value without a [push] method makes the call
    a type error of the engine. *)
Definition push_param (k : string) (v : value) : M unit :=
  cur <- get_param k ;;
  match cur with
  | VArr l => set_param k (VArr (l ++ [v]))
  | _ => throw (TypeError "push is not a function")
  end.

(** [s.toLowerCase()] on a non-null receiver; a receiver that is not a
    string has no such method and the engine raises a type error. *)
Definition call_toLowerCase (v : value) : M string :=
  match v with
  | VStr s => pure (JS.toLowerCase s)
  | _ => throw (TypeError "toLowerCase is not a function")
  end.

(** The client call itself: recorded, answered by the client. *)
Definition call_client (c : Client) (r : request) : M value :=
  fun b => mkOutcome (Normal (c r)) b [r].

(** What a method returns: the object itself, for chaining, or a value. *)
Inductive ret : Type :=
| This
| Val (v : value).

(** ** The document object *)

Module Document.

(** [ejs.Document(index, type, id)]: arguments left out are
    [undefined]; the option object starts empty. *)
Definition Document (index type id : value) : builder :=
  mkBuilder index type id [].

(** *** Serialisation *)

(** The names that travel in the request body, not in the URL. *)
Definition skipped (param : string) : bool :=
  (param =? "upsert") || (param =? "source") || (param =? "script")
  || (param =? "lang") || (param =? "params").

(** The [for (var param in params)] loop of [genClientParams]. *)
Fixpoint genClientParams_loop
    (params : obj) (todo : list string) (clientParams : obj) : obj :=
  match todo with
  | [] => clientParams
  | param :: rest =>
      if negb (has params param) then
        genClientParams_loop params rest clientParams
      else if skipped param then
        genClientParams_loop params rest clientParams
      else
        let paramVal := obj_get params param in
        let paramVal :=
          if isArray paramVal then VStr (JS.array_join paramVal)
          else paramVal in
        genClientParams_loop params rest
          (obj_set clientParams param paramVal)
  end.

Definition genClientParams : M obj :=
  params <- read var_params ;;
  pure (genClientParams_loop params (keys params) []).

(** The [for (var p in clientParams)] loop of [genParamStr]. *)
Fixpoint genParamStr_loop
    (clientParams : obj) (todo : list string) (parts : list string)
    : list string :=
  match todo with
  | [] => parts
  | p :: rest =>
      if negb (has clientParams p) then
        genParamStr_loop clientParams rest parts
      else
        genParamStr_loop clientParams rest
          (parts ++
             [p ++ "=" ++ JS.encodeURIComponent (obj_get clientParams p)])
  end.

Definition genParamStr : M string :=
  clientParams <- genClientParams ;;
  pure (JS.join "&"
          (genParamStr_loop clientParams (keys clientParams) [])).

(** *** Identity accessors *)

Definition index (idx : value) : M ret :=
  if is_nullish idx then
    v <- read var_index ;; pure (Val v)
  else
    write (fun b => mkBuilder idx (var_type b) (var_id b) (var_params b)) ;;
    pure This.

Definition type (t : value) : M ret :=
  if is_nullish t then
    v <- read var_type ;; pure (Val v)
  else
    write (fun b => mkBuilder (var_index b) t (var_id b) (var_params b)) ;;
    pure This.

Definition id (i : value) : M ret :=
  if is_nullish i then
    v <- read var_id ;; pure (Val v)
  else
    write (fun b => mkBuilder (var_index b) (var_type b) i (var_params b)) ;;
    pure This.

(** *** Option accessors that store their argument as it is *)

Definition routing (route : value) : M ret :=
  if is_nullish route then
    v <- get_param "routing" ;; pure (Val v)
  else
    set_param "routing" route ;; pure This.

Definition parent (parent : value) : M ret :=
  if is_nullish parent then
    v <- get_param "parent" ;; pure (Val v)
  else
    set_param "parent" parent ;; pure This.

Definition timestamp (ts : value) : M ret :=
  if is_nullish ts then
    v <- get_param "timestamp" ;; pure (Val v)
  else
    set_param "timestamp" ts ;; pure This.

Definition ttl (length : value) : M ret :=
  if is_nullish length then
    v <- get_param "ttl" ;; pure (Val v)
  else
    set_param "ttl" length ;; pure This.

Definition timeout (length : value) : M ret :=
  if is_nullish length then
    v <- get_param "timeout" ;; pure (Val v)
  else
    set_param "timeout" length ;; pure This.

Definition refresh (trueFalse : value) : M ret :=
  if is_nullish trueFalse then
    v <- get_param "refresh" ;; pure (Val v)
  else
    set_param "refresh" trueFalse ;; pure This.

Definition version (version : value) : M ret :=
  if is_nullish version then
    v <- get_param "version" ;; pure (Val v)
  else
    set_param "version" version ;; pure This.

Definition percolate (qry : value) : M ret :=
  if is_nullish qry then
    v <- get_param "percolate" ;; pure (Val v)
  else
    set_param "percolate" qry ;; pure This.

Definition preference (p : value) : M ret :=
  if is_nullish p then
    v <- get_param "preference" ;; pure (Val v)
  else
    set_param "preference" p ;; pure This.

Definition realtime (trueFalse : value) : M ret :=
  if is_nullish trueFalse then
    v <- get_param "realtime" ;; pure (Val v)
  else
    set_param "realtime" trueFalse ;; pure This.

Definition script (script : value) : M ret :=
  if is_nullish script then
    v <- get_param "script" ;; pure (Val v)
  else
    set_param "script" script ;; pure This.

Definition lang (lang : value) : M ret :=
  if is_nullish lang then
    v <- get_param "lang" ;; pure (Val v)
  else
    set_param "lang" lang ;; pure This.

Definition retryOnConflict (num : value) : M ret :=
  if is_nullish num then
    v <- get_param "retry_on_conflict" ;; pure (Val v)
  else
    set_param "retry_on_conflict" num ;; pure This.

(** *** Enumerated options *)

Definition versionType (vt : value) : M ret :=
  if is_nullish vt then
    v <- get_param "version_type" ;; pure (Val v)
  else
    vt <- call_toLowerCase vt ;;
    when ((vt =? "internal") || (vt =? "external"))
      (set_param "version_type" (VStr vt)) ;;
    pure This.

Definition opType (op : value) : M ret :=
  if is_nullish op then
    v <- get_param "op_type" ;; pure (Val v)
  else
    op <- call_toLowerCase op ;;
    when ((op =? "index") || (op =? "create"))
      (set_param "op_type" (VStr op)) ;;
    pure This.

Definition replication (r : value) : M ret :=
  if is_nullish r then
    v <- get_param "replication" ;; pure (Val v)
  else
    r <- call_toLowerCase r ;;
    when ((r =? "async") || (r =? "sync") || (r =? "default"))
      (set_param "replication" (VStr r)) ;;
    pure This.

Definition consistency (c : value) : M ret :=
  if is_nullish c then
    v <- get_param "consistency" ;; pure (Val v)
  else
    c <- call_toLowerCase c ;;
    when ((c =? "default") || (c =? "one") || (c =? "quorum")
          || (c =? "all"))
      (set_param "consistency" (VStr c)) ;;
    pure This.

(** *** Options with a shape check *)

Definition fields (fields : value) : M ret :=
  cur <- get_param "fields" ;;
  when (is_nullish cur) (set_param "fields" (VArr [])) ;;
  if is_nullish fields then
    v <- get_param "fields" ;; pure (Val v)
  else if isString fields then
    push_param "fields" fields ;; pure This
  else if isArray fields then
    set_param "fields" fields ;; pure This
  else
    throw (TypeError "Argument must be string or array").

Definition params (p : value) : M ret :=
  if is_nullish p then
    v <- get_param "params" ;; pure (Val v)
  else if negb (isObject p) then
    throw (TypeError "Argument must be an object")
  else
    set_param "params" p ;; pure This.

Definition upsert (doc : value) : M ret :=
  if is_nullish doc then
    v <- get_param "upsert" ;; pure (Val v)
  else if negb (isObject doc) then
    throw (TypeError "Argument must be an object")
  else
    set_param "upsert" doc ;; pure This.

Definition source (doc : value) : M ret :=
  if is_nullish doc then
    v <- get_param "source" ;; pure (Val v)
  else if negb (isObject doc) then
    throw (TypeError "Argument must be an object")
  else
    set_param "source" doc ;; pure This.

(** *** Introspection *)

Definition toString : M ret :=
  params <- read var_params ;;
  pure (Val (JS.JSON_stringify (VObj params))).

Definition _type : M ret := pure (Val (VStr "document")).

Definition _self : M ret :=
  params <- read var_params ;; pure (Val (VObj params)).

(** *** Dispatch *)

Definition doGet (client : option Client) (fnCallBack : callback)
  : M ret :=
  match client with
  | None => throw (Error "No Client Set")
  | Some client =>
      index <- read var_index ;;
      type <- read var_type ;;
      id <- read var_id ;;
      if is_nullish index || is_nullish type || is_nullish id then
        throw (Error "Index, Type, and ID must be set")
      else
        let url := "/" ++ JS.toStr index ++ "/" ++ JS.toStr type
                   ++ "/" ++ JS.toStr id in
        clientParams <- genClientParams ;;
        r <- call_client client
               (mkRequest GET url (VObj clientParams) fnCallBack) ;;
        pure (Val r)
  end.

Definition doIndex (client : option Client) (fnCallBack : callback)
  : M ret :=
  match client with
  | None => throw (Error "No Client Set")
  | Some client =>
      index <- read var_index ;;
      type <- read var_type ;;
      id <- read var_id ;;
      if is_nullish index || is_nullish type then
        throw (Error "Index and Type must be set")
      else
        source <- get_param "source" ;;
        if is_nullish source then
          throw (Error "No source document found")
        else
          let url := "/" ++ JS.toStr index ++ "/" ++ JS.toStr type in
          let data := JS.JSON_stringify source in
          paramStr <- genParamStr ;;
          let url :=
            if negb (is_nullish id) then url ++ "/" ++ JS.toStr id
            else url in
          let url :=
            if negb (paramStr =? "") then url ++ "?" ++ paramStr
            else url in
          if is_nullish id then
            response <-
              call_client client (mkRequest POST url data fnCallBack) ;;
            pure (Val response)
          else
            response <-
              call_client client (mkRequest PUT url data fnCallBack) ;;
            pure (Val response)
  end.

(** The body object assembled by [doUpdate]. *)
Definition update_data (params : obj) : obj :=
  let data := [] in
  let data := if negb (is_nullish (obj_get params "script"))
              then obj_set data "script" (obj_get params "script")
              else data in
  let data := if negb (is_nullish (obj_get params "lang"))
              then obj_set data "lang" (obj_get params "lang")
              else data in
  let data := if negb (is_nullish (obj_get params "params"))
              then obj_set data "params" (obj_get params "params")
              else data in
  let data := if negb (is_nullish (obj_get params "upsert"))
              then obj_set data "upsert" (obj_get params "upsert")
              else data in
  let data := if negb (is_nullish (obj_get params "source"))
              then obj_set data "doc" (obj_get params "source")
              else data in
  data.

Definition doUpdate (client : option Client) (fnCallBack : callback)
  : M ret :=
  match client with
  | None => throw (Error "No Client Set")
  | Some client =>
      index <- read var_index ;;
      type <- read var_type ;;
      id <- read var_id ;;
      if is_nullish index || is_nullish type || is_nullish id then
        throw (Error "Index, Type, and ID must be set")
      else
        script <- get_param "script" ;;
        source <- get_param "source" ;;
        if is_nullish script && is_nullish source then
          throw (Error "Update script or document required")
        else
          let url := "/" ++ JS.toStr index ++ "/" ++ JS.toStr type
                     ++ "/" ++ JS.toStr id ++ "/_update" in
          paramStr <- genParamStr ;;
          let url :=
            if negb (paramStr =? "") then url ++ "?" ++ paramStr
            else url in
          params <- read var_params ;;
          let data := update_data params in
          r <- call_client client
                 (mkRequest POST url (JS.JSON_stringify (VObj data))
                    fnCallBack) ;;
          pure (Val r)
  end.

Definition doDelete (client : option Client) (fnCallBack : callback)
  : M ret :=
  match client with
  | None => throw (Error "No Client Set")
  | Some client =>
      index <- read var_index ;;
      type <- read var_type ;;
      id <- read var_id ;;
      if is_nullish index || is_nullish type || is_nullish id then
        throw (Error "Index, Type, and ID must be set")
      else
        let url := "/" ++ JS.toStr index ++ "/" ++ JS.toStr type
                   ++ "/" ++ JS.toStr id in
        let data := VStr "" in
        paramStr <- genParamStr ;;
        let url :=
          if negb (paramStr =? "") then url ++ "?" ++ paramStr
          else url in
        r <- call_client client (mkRequest DELETE url data fnCallBack) ;;
        pure (Val r)
  end.

End Document.

(** ** The accessor and dispatch tables *)

Inductive option_name : Type :=
| Routing | Parent | Timestamp | Ttl | Timeout | Refresh | Version
| VersionType | Percolate | OpType | Replication | Consistency
| Preference | Realtime | Fields | Script | Lang | Params
| RetryOnConflict | Upsert | Source.

Definition accessor (o : option_name) : value -> M ret :=
  match o with
  | Routing => Document.routing
  | Parent => Document.parent
  | Timestamp => Document.timestamp
  | Ttl => Document.ttl
  | Timeout => Document.timeout
  | Refresh => Document.refresh
  | Version => Document.version
  | VersionType => Document.versionType
  | Percolate => Document.percolate
  | OpType => Document.opType
  | Replication => Document.replication
  | Consistency => Document.consistency
  | Preference => Document.preference
  | Realtime => Document.realtime
  | Fields => Document.fields
  | Script => Document.script
  | Lang => Document.lang
  | Params => Document.params
  | RetryOnConflict => Document.retryOnConflict
  | Upsert => Document.upsert
  | Source => Document.source
  end.

(** The name under which each accessor keeps its value in [params]. *)
Definition option_key (o : option_name) : string :=
  match o with
  | Routing => "routing"
  | Parent => "parent"
  | Timestamp => "timestamp"
  | Ttl => "ttl"
  | Timeout => "timeout"
  | Refresh => "refresh"
  | Version => "version"
  | VersionType => "version_type"
  | Percolate => "percolate"
  | OpType => "op_type"
  | Replication => "replication"
  | Consistency => "consistency"
  | Preference => "preference"
  | Realtime => "realtime"
  | Fields => "fields"
  | Script => "script"
  | Lang => "lang"
  | Params => "params"
  | RetryOnConflict => "retry_on_conflict"
  | Upsert => "upsert"
  | Source => "source"
  end.

(** The value set of an enumerated option, [None] for the others. *)
Definition enum_values (o : option_name) : option (list string) :=
  match o with
  | VersionType => Some ["internal"; "external"]
  | OpType => Some ["index"; "create"]
  | Replication => Some ["async"; "sync"; "default"]
  | Consistency => Some ["default"; "one"; "quorum"; "all"]
  | _ => None
  end.

Definition mem (s : string) (l : list string) : bool :=
  existsb (String.eqb s) l.

(** The four dispatch methods. *)
Inductive operation : Type := DoGet | DoIndex | DoUpdate | DoDelete.

Definition dispatch (op : operation)
  : option Client -> callback -> M ret :=
  match op with
  | DoGet => Document.doGet
  | DoIndex => Document.doIndex
  | DoUpdate => Document.doUpdate
  | DoDelete => Document.doDelete
  end.

(** ** Vocabulary of the statements *)

(** A property list is an object when no name occurs twice. *)
Definition well_formed (o : obj) : Prop := NoDup (keys o).

(** [b] with option [k] set to [v]. *)
Definition with_param (b : builder) (k : string) (v : value) : builder :=
  mkBuilder (var_index b) (var_type b) (var_id b)
    (obj_set (var_params b) k v).

(** An option counts as set when its stored value is not null. *)
Definition is_set (o : obj) (k : string) : bool :=
  negb (is_nullish (obj_get o k)).

(** *** The renderers *)

(** What [genParamStr] computes from the option object. *)
Definition paramStr_of (params : obj) : string :=
  let clientParams :=
    Document.genClientParams_loop params (keys params) [] in
  JS.join "&"
    (Document.genParamStr_loop clientParams (keys clientParams) []).

(** The names kept out of the query string. *)
Definition body_only : list string :=
  ["upsert"; "source"; "script"; "lang"; "params"].

(** The query-string renderer as the specification words it: drop the
    body-only names, join sequences with a comma, URL-encode each value,
    put [=] between name and value and [&] between the pairs. *)
Definition eligible (params : obj) : obj :=
  filter (fun kv => negb (Document.skipped (fst kv))) params.

Definition client_value (v : value) : value :=
  match v with
  | VArr _ => VStr (JS.array_join v)
  | _ => v
  end.

Definition client_params_spec (params : obj) : obj :=
  map (fun kv => (fst kv, client_value (snd kv))) (eligible params).

Definition pair_text (kv : string * value) : string :=
  fst kv ++ "=" ++ JS.encodeURIComponent (snd kv).

Definition query_string_spec (params : obj) : string :=
  JS.join "&" (map pair_text (client_params_spec params)).

(** The body renderer of [doUpdate] as the specification words it, one
    entry per name: the name in the body and the option it comes from. *)
Definition body_table : list (string * string) :=
  [("script", "script"); ("lang", "lang"); ("params", "params");
   ("upsert", "upsert"); ("doc", "source")].

(** *** Accessors *)

(** The sequence [fields] works on once it has initialised the option:
    the stored one, or the empty one when nothing is stored. *)
Definition stored_fields (b : builder) : option (list value) :=
  match obj_get (var_params b) "fields" with
  | VUndefined | VNull => Some []
  | VArr l => Some l
  | _ => None
  end.

(** The stored [fields] value, when there is one, is a sequence. *)
Definition fields_ok (b : builder) : bool :=
  match stored_fields b with
  | Some _ => true
  | None => false
  end.

(** The arguments an accessor stores: any non-null value for the plain
    options, a string that is in the value set once lowercased for the
    enumerated ones, a string or a sequence for [fields], a key-value
    object for [params], [upsert] and [source]. *)
Definition accepts (o : option_name) (v : value) : bool :=
  negb (is_nullish v) &&
  match enum_values o, o with
  | Some values, _ =>
      match v with
      | VStr s => mem (JS.toLowerCase s) values
      | _ => false
      end
  | None, Fields => isString v || isArray v
  | None, (Params | Upsert | Source) => isObject v
  | None, _ => true
  end.

(** What a read returns right after [v] was accepted. *)
Definition read_back (o : option_name) (v : value) (b : builder) : value :=
  match o, v with
  | Fields, VStr _ =>
      VArr (match stored_fields b with Some l => l | None => [] end ++ [v])
  | _, VStr s =>
      match enum_values o with
      | Some _ => VStr (JS.toLowerCase s)
      | None => v
      end
  | _, _ => v
  end.

(** The calls whose argument is stored as it is. *)
Definition stores_verbatim (o : option_name) (v : value) : bool :=
  match o, v with
  | Fields, _ => isArray v
  | _, VStr s =>
      match enum_values o with
      | Some _ => JS.toLowerCase s =? s
      | None => true
      end
  | _, _ => true
  end.

(** *** Dispatch *)

Definition identity_unset (b : builder) : bool :=
  is_nullish (var_index b) || is_nullish (var_type b)
  || is_nullish (var_id b).

(** Whether a run ended in the error raised for a missing client. *)
Definition no_client_raised (o : outcome ret) : bool :=
  match result o with
  | Throw (Error msg) => msg =? "No Client Set"
  | _ => false
  end.

(** *** Builders that calls can produce *)

(** The builders obtained from the constructor by accessor calls; the
    dispatch methods leave the builder as it is. *)
Inductive reachable : builder -> Prop :=
| reach_new index type id :
    reachable (Document.Document index type id)
| reach_index v b :
    reachable b -> reachable (final (Document.index v b))
| reach_type v b :
    reachable b -> reachable (final (Document.type v b))
| reach_id v b :
    reachable b -> reachable (final (Document.id v b))
| reach_option o v b :
    reachable b -> reachable (final (accessor o v b)).

(** *** Vocabulary of the further properties *)

(** The three identity accessors and the variable each one owns. *)
Inductive identity_name : Type := Index | Type_ | Id.

Definition identity_accessor (n : identity_name) : value -> M ret :=
  match n with
  | Index => Document.index
  | Type_ => Document.type
  | Id => Document.id
  end.

Definition identity_var (n : identity_name) (b : builder) : value :=
  match n with
  | Index => var_index b
  | Type_ => var_type b
  | Id => var_id b
  end.

Definition with_identity (n : identity_name) (v : value) (b : builder)
  : builder :=
  match n with
  | Index => mkBuilder v (var_type b) (var_id b) (var_params b)
  | Type_ => mkBuilder (var_index b) v (var_id b) (var_params b)
  | Id => mkBuilder (var_index b) (var_type b) v (var_params b)
  end.

Definition all_options : list option_name :=
  [Routing; Parent; Timestamp; Ttl; Timeout; Refresh; Version;
   VersionType; Percolate; OpType; Replication; Consistency;
   Preference; Realtime; Fields; Script; Lang; Params;
   RetryOnConflict; Upsert; Source].

(** A stored property is in order when its name is an option's and its
    value is not null. *)
Definition stored_ok (kv : string * value) : Prop :=
  In (fst kv) (map option_key all_options) /\ is_nullish (snd kv) = false.

(** The value stored for an enumerated option is absent or in its set. *)
Definition enum_ok (values : list string) (v : value) : bool :=
  match v with
  | VUndefined => true
  | VStr s => mem s values
  | _ => false
  end.

(** The JSON text of a value inside an object whose members are all
    defined. *)
Definition json_text (v : value) : string :=
  match JS.stringify v with
  | Some text => text
  | None => "null"
  end.

Definition json_member (kv : string * value) : string :=
  JS.json_quote (fst kv) ++ ":" ++ json_text (snd kv).

(** What a run of a dispatch method looks like from outside: a throw
    without any call, or the client's answer to the one request made. *)
Definition single_call (client : option Client) (fnCallBack : callback)
    (o : outcome ret) : Prop :=
  match result o, client, sent o with
  | Normal r, Some c, [req] =>
      r = Val (c req) /\ req_callback req = fnCallBack
  | Throw _, _, [] => True
  | _, _, _ => False
  end.

(** How often a character occurs in a string. *)
Fixpoint count_char (c : ascii) (s : string) : nat :=
  match s with
  | EmptyString => 0
  | String c' s' => (if Ascii.eqb c' c then 1 else 0) + count_char c s'
  end.

(** The query string with one more pair at its end. *)
Definition add_pair (paramStr pair : string) : string :=
  if paramStr =? "" then pair else paramStr ++ "&" ++ pair.

(** ** Sample data *)

Definition dq : string := String (ascii_of_nat 34) EmptyString.

(** A client that answers every request with the URL it was given. *)
Definition sample_client : Client := fun r => VStr (req_url r).

Definition sample_callback : callback := Callback 1.

Definition sample_source : value := VObj [("f", VNum 1)].

(** [ejs.Document("i", "t")] after [source({f: 1})]. *)
Definition sample_unsaved : builder :=
  final (Document.source sample_source
           (Document.Document (VStr "i") (VStr "t") VUndefined)).

(** [ejs.Document("i", "t", "5")] after [source({f: 1})],
    [routing("a b")], [fields(["x", "y"])] and [script("s")]. *)
Definition sample_saved : builder :=
  final ((Document.source sample_source ;;
          Document.routing (VStr "a b") ;;
          Document.fields (VArr [VStr "x"; VStr "y"]) ;;
          Document.script (VStr "s"))
           (Document.Document (VStr "i") (VStr "t") (VStr "5"))).

(** [ejs.Document("i", "t", "5")] after [script("ctx._source.f+=1")]. *)
Definition sample_scripted : builder :=
  final (Document.script (VStr "ctx._source.f+=1")
           (Document.Document (VStr "i") (VStr "t") (VStr "5"))).

(** ** Proof support *)

(** Unfolds a method down to the monad's primitives. *)
Ltac run_method :=
  cbv [accessor dispatch
       Document.routing Document.parent Document.timestamp Document.ttl
       Document.timeout Document.refresh Document.version
       Document.versionType Document.percolate Document.opType
       Document.replication Document.consistency Document.preference
       Document.realtime Document.fields Document.script Document.lang
       Document.params Document.retryOnConflict Document.upsert
       Document.source Document.index Document.type Document.id
       Document.doGet Document.doIndex Document.doUpdate Document.doDelete
       Document.genParamStr Document.genClientParams
       get_param set_param push_param call_toLowerCase call_client when
       bind after read write pure throw with_param
       result final sent var_index var_type var_id var_params].

Ltac split_ifs :=
  repeat match goal with
         | |- context [if ?c then _ else _] => destruct c eqn:?
         end.

(** * Lemmas and theorems *)

(** ** Objects as ordered property lists *)

Section ObjectLemmas.

Implicit Types (o : obj) (k : string) (v : value).

Lemma has_In o k : has o k = true <-> In k (keys o).
Proof.
  unfold has. rewrite existsb_exists. split.
  - intros [x [Hin Heq]]. apply String.eqb_eq in Heq. now subst.
  - intros Hin. exists k. split; [assumption | apply String.eqb_refl].
Qed.

Lemma has_false_not_In o k : has o k = false <-> ~ In k (keys o).
Proof.
  rewrite <- has_In. destruct (has o k); split; congruence.
Qed.

Lemma obj_get_set_same o k v : obj_get (obj_set o k v) k = v.
Proof.
  induction o as [| [k' v'] o IH]; simpl.
  - now rewrite String.eqb_refl.
  - destruct (String.eqb k' k) eqn:E; simpl; rewrite E; auto.
Qed.

Lemma obj_get_set_other o k k' v :
  k <> k' -> obj_get (obj_set o k v) k' = obj_get o k'.
Proof.
  intros Hne. induction o as [| [k0 v0] o IH]; simpl.
  - apply String.eqb_neq in Hne. now rewrite Hne.
  - destruct (String.eqb k0 k) eqn:E; simpl.
    + apply String.eqb_eq in E. subst k0.
      apply String.eqb_neq in Hne. now rewrite Hne.
    + now rewrite IH.
Qed.

Lemma obj_set_set o k v v' : obj_set (obj_set o k v) k v' = obj_set o k v'.
Proof.
  induction o as [| [k0 v0] o IH]; simpl.
  - now rewrite String.eqb_refl.
  - destruct (String.eqb k0 k) eqn:E; simpl; rewrite E; congruence.
Qed.

Lemma obj_set_fresh o k v :
  ~ In k (keys o) -> obj_set o k v = (o ++ [(k, v)])%list.
Proof.
  induction o as [| [k0 v0] o IH]; simpl; intros Hnin.
  - reflexivity.
  - destruct (String.eqb k0 k) eqn:E.
    + apply String.eqb_eq in E. tauto.
    + rewrite IH; tauto.
Qed.

Lemma keys_obj_set_present o k v :
  In k (keys o) -> keys (obj_set o k v) = keys o.
Proof.
  induction o as [| [k0 v0] o IH]; simpl; intros Hin.
  - contradiction.
  - destruct (String.eqb k0 k) eqn:E; simpl.
    + reflexivity.
    + destruct Hin as [-> | Hin].
      * now rewrite String.eqb_refl in E.
      * f_equal. now apply IH.
Qed.

Lemma obj_set_well_formed o k v :
  well_formed o -> well_formed (obj_set o k v).
Proof.
  unfold well_formed. intros Hwf.
  destruct (in_dec string_dec k (keys o)) as [Hin | Hnin].
  - now rewrite keys_obj_set_present.
  - rewrite obj_set_fresh by assumption.
    unfold keys. rewrite map_app. simpl.
    apply NoDup_app; try assumption.
    + constructor; [intros [] | constructor].
    + intros x Hx [<- | []]. contradiction.
Qed.

Lemma obj_get_app_fresh o o' k :
  ~ In k (keys o) -> obj_get (o ++ o')%list k = obj_get o' k.
Proof.
  induction o as [| [k0 v0] o IH]; simpl; intros Hnin.
  - reflexivity.
  - destruct (String.eqb k0 k) eqn:E.
    + apply String.eqb_eq in E. tauto.
    + apply IH. tauto.
Qed.

Lemma obj_get_absent o k : ~ In k (keys o) -> obj_get o k = VUndefined.
Proof.
  intros H. rewrite <- (app_nil_r o). now rewrite obj_get_app_fresh.
Qed.

End ObjectLemmas.

(** ** The two renderers in closed form *)

Section Renderers.

Lemma has_middle (pre rest : obj) k v :
  has (pre ++ (k, v) :: rest)%list k = true.
Proof.
  apply has_In. unfold keys. rewrite map_app. apply in_or_app.
  right. now left.
Qed.

Lemma obj_get_middle (pre rest : obj) k v :
  ~ In k (keys pre) -> obj_get (pre ++ (k, v) :: rest)%list k = v.
Proof.
  intros Hnin. rewrite obj_get_app_fresh by assumption.
  simpl. now rewrite String.eqb_refl.
Qed.

Lemma NoDup_keys_middle (pre rest : obj) k v :
  NoDup (keys (pre ++ (k, v) :: rest)%list) -> ~ In k (keys pre).
Proof.
  unfold keys. rewrite map_app. simpl. intros Hnd Hin.
  apply NoDup_remove_2 in Hnd. apply Hnd. apply in_or_app. now left.
Qed.

Lemma keys_client_params_spec params :
  keys (client_params_spec params)
  = filter (fun k => negb (Document.skipped k)) (keys params).
Proof.
  unfold client_params_spec, eligible, keys.
  induction params as [| [k v] params IH]; simpl; [reflexivity |].
  destruct (Document.skipped k); simpl; now rewrite IH.
Qed.

Lemma client_params_spec_well_formed params :
  well_formed params -> well_formed (client_params_spec params).
Proof.
  unfold well_formed. rewrite keys_client_params_spec.
  apply NoDup_filter.
Qed.

Lemma client_params_spec_app (p q : obj) :
  client_params_spec (p ++ q)
  = (client_params_spec p ++ client_params_spec q)%list.
Proof.
  unfold client_params_spec, eligible.
  now rewrite filter_app, map_app.
Qed.

Lemma client_value_isArray v :
  (if isArray v then VStr (JS.array_join v) else v) = client_value v.
Proof. destruct v; reflexivity. Qed.

(** The first loop, started in the middle of the enumeration. *)
Lemma genClientParams_loop_from (todo pre : obj) :
  well_formed (pre ++ todo) ->
  Document.genClientParams_loop (pre ++ todo)%list (keys todo)
    (client_params_spec pre)
  = client_params_spec (pre ++ todo).
Proof.
  revert pre. induction todo as [| [k v] todo IH]; intros pre Hwf.
  - simpl. now rewrite app_nil_r.
  - pose proof (NoDup_keys_middle _ _ _ _ Hwf) as Hfresh.
    simpl. rewrite has_middle. simpl.
    replace (pre ++ (k, v) :: todo)%list
      with ((pre ++ [(k, v)]) ++ todo)%list in *
      by (now rewrite <- app_assoc).
    specialize (IH (pre ++ [(k, v)])%list Hwf).
    rewrite client_params_spec_app in IH.
    destruct (Document.skipped k) eqn:Hskip.
    + unfold client_params_spec at 2, eligible in IH.
      simpl in IH. rewrite Hskip in IH. simpl in IH.
      rewrite app_nil_r in IH. exact IH.
    + rewrite <- app_assoc. simpl.
      rewrite obj_get_middle by assumption.
      rewrite client_value_isArray.
      rewrite obj_set_fresh.
      * unfold client_params_spec at 2, eligible in IH.
        simpl in IH. rewrite Hskip in IH. simpl in IH.
        rewrite <- app_assoc in IH. exact IH.
      * rewrite keys_client_params_spec.
        intros Hin. apply filter_In in Hin. tauto.
Qed.

Lemma genClientParams_loop_spec params :
  well_formed params ->
  Document.genClientParams_loop params (keys params) []
  = client_params_spec params.
Proof.
  intros Hwf. exact (genClientParams_loop_from params [] Hwf).
Qed.

(** The second loop, likewise. *)
Lemma genParamStr_loop_from (todo pre : obj) :
  well_formed (pre ++ todo) ->
  Document.genParamStr_loop (pre ++ todo)%list (keys todo)
    (map pair_text pre)
  = map pair_text (pre ++ todo)%list.
Proof.
  revert pre. induction todo as [| [k v] todo IH]; intros pre Hwf.
  - simpl. now rewrite app_nil_r.
  - pose proof (NoDup_keys_middle _ _ _ _ Hwf) as Hfresh.
    simpl. rewrite has_middle. simpl.
    rewrite obj_get_middle by assumption.
    replace (pre ++ (k, v) :: todo)%list
      with ((pre ++ [(k, v)]) ++ todo)%list in *
      by (now rewrite <- app_assoc).
    specialize (IH (pre ++ [(k, v)])%list Hwf).
    rewrite map_app in IH. exact IH.
Qed.

Lemma genParamStr_loop_spec (clientParams : obj) :
  well_formed clientParams ->
  Document.genParamStr_loop clientParams (keys clientParams) []
  = map pair_text clientParams.
Proof.
  intros Hwf. exact (genParamStr_loop_from clientParams [] Hwf).
Qed.

Lemma paramStr_of_spec params :
  well_formed params -> paramStr_of params = query_string_spec params.
Proof.
  intros Hwf. unfold paramStr_of, query_string_spec.
  rewrite genClientParams_loop_spec by assumption.
  rewrite genParamStr_loop_spec
    by (now apply client_params_spec_well_formed).
  reflexivity.
Qed.

Lemma genClientParams_run b :
  Document.genClientParams b
  = mkOutcome
      (Normal (Document.genClientParams_loop (var_params b)
                 (keys (var_params b)) []))
      b [].
Proof. reflexivity. Qed.

Lemma genParamStr_run b :
  Document.genParamStr b
  = mkOutcome (Normal (paramStr_of (var_params b))) b [].
Proof. reflexivity. Qed.

Lemma pair_text_nonempty kv : pair_text kv <> "".
Proof.
  destruct kv as [k v]. unfold pair_text. simpl.
  destruct k; discriminate.
Qed.

Lemma join_empty_iff sep (parts : list string) :
  (forall p, In p parts -> p <> "") ->
  JS.join sep parts = "" <-> parts = [].
Proof.
  intros Hne. split.
  - destruct parts as [| p rest]; [reflexivity |].
    intros Hjoin. exfalso. apply (Hne p (or_introl eq_refl)).
    destruct rest; simpl in Hjoin; [assumption |].
    destruct p; [reflexivity | discriminate].
  - intros ->. reflexivity.
Qed.

End Renderers.

(** ** Runs of the fields accessor *)

Section FieldsAccessor.

Variable b : builder.
Variable l : list value.
Hypothesis Hstored : stored_fields b = Some l.

Lemma fields_push s :
  Document.fields (VStr s) b
  = mkOutcome (Normal This)
      (with_param b "fields" (VArr (l ++ [VStr s]))) [].
Proof.
  destruct b as [i t d p]. unfold stored_fields in Hstored.
  simpl in Hstored. run_method.
  destruct (obj_get p "fields") eqn:E; try discriminate;
    cbn [is_nullish isString]; rewrite ?obj_get_set_same, ?E;
    rewrite ?obj_set_set; congruence.
Qed.

Lemma fields_overwrite l' :
  Document.fields (VArr l') b
  = mkOutcome (Normal This) (with_param b "fields" (VArr l')) [].
Proof.
  clear Hstored. destruct b as [i t d p]. run_method.
  destruct (is_nullish (obj_get p "fields"));
    cbn [is_nullish isString isArray]; rewrite ?obj_set_set; reflexivity.
Qed.

Lemma fields_read v :
  is_nullish v = true ->
  Document.fields v b
  = mkOutcome (Normal (Val (VArr l)))
      (if is_nullish (obj_get (var_params b) "fields")
       then with_param b "fields" (VArr []) else b) [].
Proof.
  intros Hv. destruct b as [i t d p]. unfold stored_fields in Hstored.
  simpl in Hstored. run_method. rewrite Hv.
  destruct (obj_get p "fields") eqn:E; try discriminate;
    cbn [is_nullish]; rewrite ?obj_get_set_same, ?E; congruence.
Qed.

End FieldsAccessor.

(** ** What the methods preserve *)

Section Invariant.

Lemma Document_well_formed index type id :
  well_formed (var_params (Document.Document index type id)).
Proof. constructor. Qed.

Lemma fields_well_formed v b :
  well_formed (var_params b) ->
  well_formed (var_params (final (Document.fields v b))).
Proof.
  intros Hwf. destruct b as [i t d p]. simpl in Hwf. run_method.
  destruct (obj_get p "fields") eqn:E; cbn [is_nullish];
    destruct v; cbn [is_nullish isString isArray];
    rewrite ?obj_get_set_same, ?E; cbn;
    repeat apply obj_set_well_formed; assumption.
Qed.

(** Every accessor keeps the option object an object. *)
Lemma accessor_well_formed o v b :
  well_formed (var_params b) ->
  well_formed (var_params (final (accessor o v b))).
Proof.
  intros Hwf. destruct o; try (now apply fields_well_formed).
  all: destruct b as [i t d p]; simpl in Hwf; run_method.
  all: destruct v; cbn [is_nullish isString isArray isObject negb].
  all: try assumption.
  all: try (apply obj_set_well_formed; assumption).
  all: split_ifs; cbn.
  all: try assumption.
  all: apply obj_set_well_formed; assumption.
Qed.

(** The dispatch methods do not write to the closure at all. *)
Lemma dispatch_final op client fnCallBack b :
  final (dispatch op client fnCallBack b) = b.
Proof.
  destruct b as [i t d p]. destruct op, client as [c |]; run_method.
  all: try reflexivity.
  all: split_ifs; reflexivity.
Qed.

End Invariant.

(** ** Dispatch: store and partial update *)

Lemma stringify_defined v :
  v <> VUndefined -> exists text, JS.stringify v = Some text.
Proof.
  destruct v as [| | [|] | | | |]; intros Hv; simpl; eauto. congruence.
Qed.

(** C1: with a client, index, type and the source option set, [doIndex]
    hands the client exactly one request and returns its answer: a POST to
    [/index/type] when id is unset, a PUT to [/index/type/id] when it is
    set, with the JSON text of the source as body, and with [?] and the
    output of the query-string renderer appended to the URL exactly when
    that output is not empty. *)
Theorem doIndex_request
    (client : Client) (fnCallBack : callback) (b : builder) :
  is_nullish (var_index b) = false ->
  is_nullish (var_type b) = false ->
  is_nullish (obj_get (var_params b) "source") = false ->
  let paramStr := paramStr_of (var_params b) in
  let path := "/" ++ JS.toStr (var_index b) ++ "/" ++ JS.toStr (var_type b) in
  let path :=
    if is_nullish (var_id b) then path
    else path ++ "/" ++ JS.toStr (var_id b) in
  let url := if paramStr =? "" then path else path ++ "?" ++ paramStr in
  let body := JS.JSON_stringify (obj_get (var_params b) "source") in
  let req :=
    mkRequest (if is_nullish (var_id b) then POST else PUT) url body
      fnCallBack in
  Document.genParamStr b = mkOutcome (Normal paramStr) b []
  /\ (exists text,
         JS.stringify (obj_get (var_params b) "source") = Some text
         /\ body = VStr text)
  /\ Document.doIndex (Some client) fnCallBack b
     = mkOutcome (Normal (Val (client req))) b [req].
Proof.
  intros Hi Ht Hs. cbv zeta. split; [reflexivity | split].
  - destruct (stringify_defined (obj_get (var_params b) "source"))
      as [text Htext].
    + intros E. rewrite E in Hs. discriminate.
    + exists text. unfold JS.JSON_stringify. now rewrite Htext.
  - destruct b as [i t d p].
    cbn [var_index var_type var_id var_params] in *.
    unfold paramStr_of. run_method. rewrite Hi, Ht. cbv beta iota delta [orb].
    rewrite Hs. cbv beta iota.
    destruct (is_nullish d); cbv beta iota;
      match goal with
      | |- context [?s =? ""] => destruct (s =? "")
      end; reflexivity.
Qed.

Lemma doIndex_request_witness :
  Document.doIndex (Some sample_client) sample_callback sample_unsaved
  = mkOutcome (Normal (Val (VStr "/i/t"))) sample_unsaved
      [mkRequest POST "/i/t" (VStr ("{" ++ dq ++ "f" ++ dq ++ ":1}"))
         sample_callback]
  /\ Document.doIndex (Some sample_client) sample_callback sample_saved
     = mkOutcome (Normal (Val (VStr "/i/t/5?routing=a%20b&fields=x%2Cy")))
         sample_saved
         [mkRequest PUT "/i/t/5?routing=a%20b&fields=x%2Cy"
            (VStr ("{" ++ dq ++ "f" ++ dq ++ ":1}")) sample_callback].
Proof.
  split.
  - exact (proj2 (proj2 (doIndex_request sample_client sample_callback
                           sample_unsaved
                           eq_refl eq_refl eq_refl))).
  - exact (proj2 (proj2 (doIndex_request sample_client sample_callback
                           sample_saved
                           eq_refl eq_refl eq_refl))).
Defined.

Lemma update_data_table (params : obj) :
  Document.update_data params
  = flat_map (fun entry =>
                if is_set params (snd entry)
                then [(fst entry, obj_get params (snd entry))]
                else [])
      body_table.
Proof.
  unfold Document.update_data, is_set. simpl.
  destruct (is_nullish (obj_get params "script"));
    destruct (is_nullish (obj_get params "lang"));
    destruct (is_nullish (obj_get params "params"));
    destruct (is_nullish (obj_get params "upsert"));
    destruct (is_nullish (obj_get params "source")); reflexivity.
Qed.

Lemma update_data_members (params : obj) (name option : string) :
  In (name, option) body_table ->
  has (Document.update_data params) name = is_set params option
  /\ (is_set params option = true ->
      obj_get (Document.update_data params) name = obj_get params option).
Proof.
  intros Hin. rewrite update_data_table. unfold is_set. simpl in Hin.
  repeat (destruct Hin as [Hin | Hin]; [injection Hin as <- <- |]);
    try contradiction.
  all: simpl.
  all: destruct (is_nullish (obj_get params "script"));
    destruct (is_nullish (obj_get params "lang"));
    destruct (is_nullish (obj_get params "params"));
    destruct (is_nullish (obj_get params "upsert"));
    destruct (is_nullish (obj_get params "source")).
  all: split; [reflexivity | cbn; congruence].
Qed.

Lemma update_data_keys (params : obj) (k : string) :
  has (Document.update_data params) k = true ->
  In k (map fst body_table).
Proof.
  rewrite has_In, update_data_table. unfold keys.
  rewrite flat_map_concat_map, concat_map, map_map.
  intros Hin. apply in_concat in Hin. destruct Hin as [ks [Hks Hk]].
  apply in_map_iff in Hks. destruct Hks as [entry [<- Hentry]].
  destruct (is_set params (snd entry)); [| contradiction].
  simpl in Hk. destruct Hk as [<- | []]. now apply in_map.
Qed.

(** C2: with a client and index, type and id set, [doUpdate] with a
    script or a source set hands the client exactly one POST to
    [/index/type/id/_update], with [?] and the renderer output appended
    when that output is not empty; the body is the JSON text of an object
    that has [script], [lang], [params], [upsert] each exactly when that
    option is set, with the option's value, and [doc] exactly when source
    is set, with the source's value, and nothing else.  With neither
    script nor source set it throws and the client is not called. *)
Theorem doUpdate_request
    (client : Client) (fnCallBack : callback) (b : builder) :
  is_nullish (var_index b) = false ->
  is_nullish (var_type b) = false ->
  is_nullish (var_id b) = false ->
  let params := var_params b in
  let paramStr := paramStr_of params in
  let path := "/" ++ JS.toStr (var_index b) ++ "/" ++ JS.toStr (var_type b)
              ++ "/" ++ JS.toStr (var_id b) ++ "/_update" in
  let url := if paramStr =? "" then path else path ++ "?" ++ paramStr in
  let data := Document.update_data params in
  let req :=
    mkRequest POST url (JS.JSON_stringify (VObj data)) fnCallBack in
  (is_set params "script" || is_set params "source" = true ->
   Document.doUpdate (Some client) fnCallBack b
   = mkOutcome (Normal (Val (client req))) b [req])
  /\ (forall name option, In (name, option) body_table ->
        has data name = is_set params option
        /\ (is_set params option = true ->
            obj_get data name = obj_get params option))
  /\ (forall k, has data k = true ->
        In k ["script"; "lang"; "params"; "upsert"; "doc"])
  /\ (is_set params "script" || is_set params "source" = false ->
      Document.doUpdate (Some client) fnCallBack b
      = mkOutcome (Throw (Error "Update script or document required")) b []).
Proof.
  intros Hi Ht Hd. cbv zeta. split; [| split; [| split]].
  - unfold is_set. intros Hbody. destruct b as [i t d p].
    cbn [var_index var_type var_id var_params] in *.
    unfold paramStr_of. run_method. rewrite Hi, Ht, Hd.
    cbv beta iota delta [orb].
    destruct (is_nullish (obj_get p "script"));
      destruct (is_nullish (obj_get p "source")); try discriminate;
      cbv beta iota delta [andb];
      match goal with
      | |- context [?s =? ""] => destruct (s =? "")
      end; reflexivity.
  - intros name option Hin. now apply update_data_members.
  - intros k Hk. exact (update_data_keys _ _ Hk).
  - unfold is_set. intros Hbody. destruct b as [i t d p].
    cbn [var_index var_type var_id var_params] in *.
    run_method. rewrite Hi, Ht, Hd. cbv beta iota delta [orb].
    destruct (is_nullish (obj_get p "script"));
      destruct (is_nullish (obj_get p "source")); try discriminate.
    reflexivity.
Qed.

Lemma doUpdate_request_witness :
  Document.doUpdate (Some sample_client) sample_callback sample_scripted
  = mkOutcome (Normal (Val (VStr "/i/t/5/_update"))) sample_scripted
      [mkRequest POST "/i/t/5/_update"
         (VStr ("{" ++ dq ++ "script" ++ dq ++ ":"
                ++ dq ++ "ctx._source.f+=1" ++ dq ++ "}"))
         sample_callback]
  /\ Document.doUpdate (Some sample_client) sample_callback
       (Document.Document (VStr "i") (VStr "t") (VStr "5"))
     = mkOutcome (Throw (Error "Update script or document required"))
         (Document.Document (VStr "i") (VStr "t") (VStr "5")) [].
Proof.
  split.
  - exact (proj1 (doUpdate_request sample_client sample_callback
                    sample_scripted
                    eq_refl eq_refl eq_refl) eq_refl).
  - exact (proj2 (proj2 (proj2
             (doUpdate_request sample_client sample_callback
                (Document.Document (VStr "i") (VStr "t") (VStr "5"))
                eq_refl eq_refl eq_refl))) eq_refl).
Defined.

(** ** The query-string renderer *)

Lemma mem_In s l : mem s l = true <-> In s l.
Proof.
  unfold mem. rewrite existsb_exists. split.
  - intros [x [Hin Heq]]. apply String.eqb_eq in Heq. now subst.
  - intros Hin. exists s. split; [assumption | apply String.eqb_refl].
Qed.

Lemma skipped_body_only k : Document.skipped k = mem k body_only.
Proof.
  unfold Document.skipped, mem, body_only. simpl.
  now rewrite orb_false_r, !orb_assoc.
Qed.

Lemma obj_get_client_params_spec params k :
  Document.skipped k = false ->
  obj_get (client_params_spec params) k = client_value (obj_get params k).
Proof.
  intros Hk. unfold client_params_spec, eligible.
  induction params as [| [k0 v0] params IH]; simpl; [reflexivity |].
  destruct (Document.skipped k0) eqn:Hk0; simpl.
  - destruct (String.eqb_spec k0 k) as [-> | _]; [congruence | exact IH].
  - destruct (String.eqb k0 k); [reflexivity | exact IH].
Qed.

(** C3: on every option object the query-string renderer leaves out
    [upsert], [source], [script], [lang] and [params] whether or not they
    are set, keeps every other option in order, replaces a sequence value
    by its elements joined with a comma, URL-encodes each value, writes
    each pair as [key=value] and joins the pairs with [&]; its output is
    empty exactly when no eligible option is set.  It neither writes to
    the builder nor calls the client. *)
Theorem genParamStr_spec (b : builder) :
  well_formed (var_params b) ->
  let params := var_params b in
  let clientParams := Document.genClientParams_loop params (keys params) [] in
  let paramStr := paramStr_of params in
  Document.genClientParams b = mkOutcome (Normal clientParams) b []
  /\ Document.genParamStr b = mkOutcome (Normal paramStr) b []
  /\ (forall k, In k body_only -> has clientParams k = false)
  /\ keys clientParams
     = filter (fun k => negb (mem k body_only)) (keys params)
  /\ (forall k l, ~ In k body_only -> obj_get params k = VArr l ->
        obj_get clientParams k
        = VStr (JS.join ","
                  (map (fun e => if is_nullish e then "" else JS.toStr e) l)))
  /\ (forall k, ~ In k body_only -> isArray (obj_get params k) = false ->
        obj_get clientParams k = obj_get params k)
  /\ paramStr
     = JS.join "&"
         (map (fun kv => fst kv ++ "=" ++ JS.encodeURIComponent (snd kv))
            clientParams)
  /\ (paramStr = "" <-> forall k, has params k = true -> In k body_only).
Proof.
  intros Hwf. cbv zeta.
  rewrite paramStr_of_spec by assumption.
  rewrite genParamStr_run, genClientParams_run.
  rewrite paramStr_of_spec by assumption.
  rewrite genClientParams_loop_spec by assumption.
  assert (Hkeys : keys (client_params_spec (var_params b))
                  = filter (fun k => negb (mem k body_only))
                      (keys (var_params b))).
  { rewrite keys_client_params_spec. apply filter_ext.
    intros k. now rewrite skipped_body_only. }
  assert (Hskip : forall k, ~ In k body_only -> Document.skipped k = false).
  { intros k Hk. rewrite skipped_body_only.
    destruct (mem k body_only) eqn:E; [| reflexivity].
    apply mem_In in E. contradiction. }
  repeat split.
  - intros k Hk. apply has_false_not_In. rewrite Hkeys.
    intros Hin. apply filter_In in Hin. destruct Hin as [_ Hin].
    apply mem_In in Hk. rewrite Hk in Hin. discriminate.
  - exact Hkeys.
  - intros k l Hk Hget.
    rewrite obj_get_client_params_spec by auto. now rewrite Hget.
  - intros k Hk Harr.
    rewrite obj_get_client_params_spec by auto.
    destruct (obj_get (var_params b) k); try reflexivity. discriminate.
  - unfold query_string_spec. intros Hempty k Hk.
    apply join_empty_iff in Hempty.
    + apply map_eq_nil in Hempty.
      apply mem_In. destruct (mem k body_only) eqn:E; [reflexivity |].
      apply has_In in Hk.
      assert (Hin : In k (keys (client_params_spec (var_params b)))).
      { rewrite Hkeys. apply filter_In. now rewrite E. }
      rewrite Hempty in Hin. contradiction.
    + intros p Hp. apply in_map_iff in Hp.
      destruct Hp as [kv [<- _]]. apply pair_text_nonempty.
  - unfold query_string_spec. intros Hall.
    assert (Hnil : keys (client_params_spec (var_params b)) = []).
    { rewrite Hkeys. 
      destruct (filter _ _) as [| k rest] eqn:E; [reflexivity |].
      assert (Hin : In k (filter (fun k => negb (mem k body_only))
                            (keys (var_params b))))
        by (rewrite E; now left).
      apply filter_In in Hin. destruct Hin as [Hin Hk].
      apply has_In, Hall, mem_In in Hin. rewrite Hin in Hk. discriminate. }
    apply map_eq_nil in Hnil. now rewrite Hnil.
Qed.

Lemma genParamStr_spec_witness :
  well_formed (var_params sample_saved)
  /\ Document.genParamStr sample_saved
     = mkOutcome (Normal "routing=a%20b&fields=x%2Cy") sample_saved [].
Proof.
  assert (Hwf : well_formed (var_params sample_saved))
    by (repeat constructor; simpl; intuition discriminate).
  split; [exact Hwf |].
  exact (proj1 (proj2 (genParamStr_spec sample_saved Hwf))).
Defined.

(** ** Accessors *)

Section AccessorRuns.

Lemma bind_run {A B} (m : M A) (k : A -> M B) b a b' :
  m b = mkOutcome (Normal a) b' [] -> bind m k b = k a b'.
Proof. intros H. unfold bind. now rewrite H. Qed.

Lemma bind_throw {A B} (m : M A) (k : A -> M B) b e b' s :
  m b = mkOutcome (Throw e) b' s ->
  bind m k b = mkOutcome (Throw e) b' s.
Proof. intros H. unfold bind. now rewrite H. Qed.

(** Called without an argument, every accessor but [fields] only reads. *)
Lemma accessor_read o v b :
  o <> Fields -> is_nullish v = true ->
  accessor o v b
  = mkOutcome (Normal (Val (obj_get (var_params b) (option_key o)))) b [].
Proof.
  intros Ho Hv. destruct b as [i t d p].
  destruct o; try congruence; run_method; rewrite Hv; reflexivity.
Qed.

(** The accessors without validation store what they are given. *)
Lemma accessor_store o v b :
  enum_values o = None -> o <> Fields ->
  is_nullish v = false ->
  (In o [Params; Upsert; Source] -> isObject v = true) ->
  accessor o v b
  = mkOutcome (Normal This) (with_param b (option_key o) v) [].
Proof.
  intros He Ho Hv Hobj. destruct b as [i t d p].
  destruct o; try discriminate; try congruence;
    run_method; rewrite Hv; try reflexivity.
  all: rewrite Hobj by (simpl; tauto); reflexivity.
Qed.

(** An enumerated accessor given a string. *)
Lemma enum_accessor_string o values s b :
  enum_values o = Some values ->
  accessor o (VStr s) b
  = mkOutcome (Normal This)
      (if mem (JS.toLowerCase s) values
       then with_param b (option_key o) (VStr (JS.toLowerCase s))
       else b) [].
Proof.
  intros He. destruct b as [i t d p].
  destruct o; try discriminate; injection He as <-;
    unfold mem, existsb; rewrite orb_false_r;
    run_method; cbn [is_nullish]; rewrite <- ?orb_assoc;
    match goal with
    | |- context [if ?c then _ else _] => destruct c
    end; reflexivity.
Qed.

(** An enumerated accessor given something that is not a string. *)
Lemma enum_accessor_non_string o values v b :
  enum_values o = Some values ->
  is_nullish v = false -> isString v = false ->
  accessor o v b
  = mkOutcome (Throw (TypeError "toLowerCase is not a function")) b [].
Proof.
  intros He Hv Hs. destruct b as [i t d p].
  destruct o; try discriminate; destruct v; try discriminate;
    reflexivity.
Qed.

Lemma stored_fields_with_param b l :
  stored_fields (with_param b "fields" (VArr l)) = Some l.
Proof.
  unfold stored_fields, with_param. simpl.
  now rewrite obj_get_set_same.
Qed.

End AccessorRuns.

(** *** Enumerated options *)

(** C4 as stated fails: an argument that is neither null nor a member
    of the value set need not be ignored.  [versionType(5)] throws. *)
Lemma enum_outsider_ignored_counterexample :
  ~ (forall o values v b,
        enum_values o = Some values ->
        is_nullish v = false ->
        (forall s, In s values -> v <> VStr s) ->
        accessor o v b = mkOutcome (Normal This) b []).
Proof.
  intros H.
  specialize (H VersionType ["internal"; "external"] (VNum 5)
                (Document.Document VUndefined VUndefined VUndefined)
                eq_refl eq_refl).
  assert (Hout : forall s, In s ["internal"; "external"] -> VNum 5 <> VStr s)
    by (intros s _; discriminate).
  specialize (H Hout). discriminate H.
Qed.

(** C4, amended: for each of [versionType], [opType], [replication] and
    [consistency], a string argument whose lower-case form is outside the
    option's value set raises nothing, leaves the builder, and with it the
    stored value or its absence, as it was, and returns the builder. *)
Theorem enum_invalid_string_ignored o values s b :
  enum_values o = Some values ->
  mem (JS.toLowerCase s) values = false ->
  accessor o (VStr s) b = mkOutcome (Normal This) b []
  /\ (accessor o (VStr s) ;; accessor o VUndefined) b
     = accessor o VUndefined b.
Proof.
  intros He Hout.
  assert (Hrun : accessor o (VStr s) b = mkOutcome (Normal This) b []).
  { rewrite (enum_accessor_string o values) by assumption.
    now rewrite Hout. }
  split; [exact Hrun |].
  now rewrite (bind_run _ _ _ _ _ Hrun).
Qed.

Lemma enum_invalid_string_ignored_witness :
  mem (JS.toLowerCase "Strict") ["internal"; "external"] = false
  /\ accessor VersionType (VStr "Strict")
       (with_param sample_saved "version_type" (VStr "external"))
     = mkOutcome (Normal This)
         (with_param sample_saved "version_type" (VStr "external")) [].
Proof.
  split; [reflexivity |].
  exact (proj1 (enum_invalid_string_ignored VersionType
                  ["internal"; "external"] "Strict"
                  (with_param sample_saved "version_type" (VStr "external"))
                  eq_refl eq_refl)).
Defined.

(** C10: each enumerated accessor lowercases a non-null argument before
    it validates and stores it.  A string whose lower-case form is in the
    value set is accepted and stored in lower case, and that lower-case
    string is what a later read returns; a non-null argument that is not
    a string makes the lowercasing step raise a type error, with the
    builder untouched. *)
Theorem enum_accessor_lowercases o values b :
  enum_values o = Some values ->
  (forall s, mem (JS.toLowerCase s) values = true ->
     let b' := with_param b (option_key o) (VStr (JS.toLowerCase s)) in
     accessor o (VStr s) b = mkOutcome (Normal This) b' []
     /\ (accessor o (VStr s) ;; accessor o VUndefined) b
        = mkOutcome (Normal (Val (VStr (JS.toLowerCase s)))) b' [])
  /\ (forall v, is_nullish v = false -> isString v = false ->
        exists msg, accessor o v b = mkOutcome (Throw (TypeError msg)) b []).
Proof.
  intros He. split.
  - intros s Hin b'.
    assert (Hrun : accessor o (VStr s) b = mkOutcome (Normal This) b' []).
    { rewrite (enum_accessor_string o values) by assumption.
      now rewrite Hin. }
    split; [exact Hrun |].
    rewrite (bind_run _ _ _ _ _ Hrun).
    rewrite accessor_read;
      [| destruct o; discriminate | reflexivity].
    unfold b', with_param. simpl. now rewrite obj_get_set_same.
  - intros v Hv Hs. eexists.
    now apply (enum_accessor_non_string o values).
Qed.

Lemma enum_accessor_lowercases_witness :
  (Document.versionType (VStr "External") ;;
   Document.versionType VUndefined) sample_unsaved
  = mkOutcome (Normal (Val (VStr "external")))
      (with_param sample_unsaved "version_type" (VStr "external")) []
  /\ (Document.consistency (VStr "QUORUM") ;;
      Document.consistency VUndefined) sample_unsaved
     = mkOutcome (Normal (Val (VStr "quorum")))
         (with_param sample_unsaved "consistency" (VStr "quorum")) []
  /\ exists msg,
       Document.opType (VBool true) sample_unsaved
       = mkOutcome (Throw (TypeError msg)) sample_unsaved [].
Proof.
  split; [| split].
  - exact (proj2 (proj1 (enum_accessor_lowercases VersionType _
                           sample_unsaved eq_refl)
                    "External" eq_refl)).
  - exact (proj2 (proj1 (enum_accessor_lowercases Consistency _
                           sample_unsaved eq_refl)
                    "QUORUM" eq_refl)).
  - exact (proj2 (enum_accessor_lowercases OpType _ sample_unsaved eq_refl)
             (VBool true) eq_refl eq_refl).
Defined.

(** *** The fields accessor *)

(** C5: [fields] first makes the stored value the empty sequence when
    nothing is stored.  A single string is then appended to the stored
    sequence, so that two such calls append both in order; a sequence
    replaces the stored value by exactly that sequence; and a call
    without argument returns the stored sequence. *)
Theorem fields_semantics (b : builder) (l : list value) :
  stored_fields b = Some l ->
  (is_nullish (obj_get (var_params b) "fields") = true -> l = [])
  /\ (forall s,
        Document.fields (VStr s) b
        = mkOutcome (Normal This)
            (with_param b "fields" (VArr (l ++ [VStr s]))) [])
  /\ (forall s1 s2,
        (Document.fields (VStr s1) ;; Document.fields (VStr s2)) b
        = mkOutcome (Normal This)
            (with_param b "fields" (VArr (l ++ [VStr s1; VStr s2]))) [])
  /\ (forall l',
        Document.fields (VArr l') b
        = mkOutcome (Normal This) (with_param b "fields" (VArr l')) [])
  /\ (forall v, is_nullish v = true ->
        result (Document.fields v b) = Normal (Val (VArr l))
        /\ obj_get (var_params (final (Document.fields v b))) "fields"
           = VArr l
        /\ sent (Document.fields v b) = []).
Proof.
  intros Hstored. split; [| split; [| split; [| split]]].
  - unfold stored_fields in Hstored. intros Hnull.
    destruct (obj_get (var_params b) "fields"); try discriminate;
      congruence.
  - intros s. now apply fields_push.
  - intros s1 s2.
    rewrite (bind_run _ _ _ _ _ (fields_push b l Hstored s1)).
    rewrite (fields_push _ (l ++ [VStr s1]))
      by apply stored_fields_with_param.
    unfold with_param. simpl.
    now rewrite obj_set_set, <- app_assoc.
  - intros l'. apply fields_overwrite.
  - intros v Hv. rewrite (fields_read b l Hstored v Hv). simpl.
    repeat split.
    unfold stored_fields in Hstored.
    destruct (obj_get (var_params b) "fields") eqn:E; try discriminate;
      simpl; rewrite ?obj_get_set_same; congruence.
Qed.

Lemma fields_semantics_witness :
  (Document.fields (VStr "a") ;; Document.fields (VStr "b"))
    (Document.Document (VStr "i") (VStr "t") VUndefined)
  = mkOutcome (Normal This)
      (mkBuilder (VStr "i") (VStr "t") VUndefined
         [("fields", VArr [VStr "a"; VStr "b"])]) []
  /\ Document.fields (VArr [VStr "x"; VStr "y"])
       (mkBuilder (VStr "i") (VStr "t") VUndefined
          [("fields", VArr [VStr "a"; VStr "b"])])
     = mkOutcome (Normal This)
         (mkBuilder (VStr "i") (VStr "t") VUndefined
            [("fields", VArr [VStr "x"; VStr "y"])]) [].
Proof.
  split.
  - exact (proj1 (proj2 (proj2
             (fields_semantics
                (Document.Document (VStr "i") (VStr "t") VUndefined)
                [] eq_refl))) "a" "b").
  - exact (proj1 (proj2 (proj2 (proj2
             (fields_semantics
                (mkBuilder (VStr "i") (VStr "t") VUndefined
                   [("fields", VArr [VStr "a"; VStr "b"])])
                [VStr "a"; VStr "b"] eq_refl))))
             [VStr "x"; VStr "y"]).
Defined.

(** *** Setting, then reading *)

Section RoundTrip.

Lemma option_name_eq_dec (o o' : option_name) : {o = o'} + {o <> o'}.
Proof. decide equality. Defined.

Lemma accessor_keeps_fields o v b :
  o <> Fields ->
  obj_get (var_params (final (accessor o v b))) "fields"
  = obj_get (var_params b) "fields".
Proof.
  intros Hne. destruct b as [i t d p].
  destruct o; try congruence; run_method; destruct v;
    cbn [is_nullish isObject negb]; try reflexivity;
    split_ifs; cbn; try reflexivity;
    now rewrite obj_get_set_other by discriminate.
Qed.

Lemma accessor_fields_ok o v b :
  fields_ok b = true -> fields_ok (final (accessor o v b)) = true.
Proof.
  unfold fields_ok, stored_fields. intros Hok.
  destruct (option_name_eq_dec o Fields) as [-> | Hne].
  - destruct b as [i t d p]. cbn [var_params] in Hok.
    cbn [accessor]. run_method.
    destruct (obj_get p "fields") eqn:E; try discriminate;
      cbn [is_nullish]; destruct v; cbn [is_nullish isString isArray];
      rewrite ?obj_get_set_same, ?E; cbn;
      rewrite ?obj_get_set_same, ?E; reflexivity.
  - now rewrite accessor_keeps_fields.
Qed.

Lemma roundtrip_plain o v b :
  enum_values o = None -> o <> Fields ->
  is_nullish v = false ->
  (In o [Params; Upsert; Source] -> isObject v = true) ->
  (accessor o v ;; accessor o VUndefined) b
  = mkOutcome (Normal (Val v)) (with_param b (option_key o) v) [].
Proof.
  intros He Ho Hv Hobj.
  rewrite (bind_run _ _ _ _ _ (accessor_store o v b He Ho Hv Hobj)).
  rewrite accessor_read by (assumption || reflexivity).
  unfold with_param. simpl. now rewrite obj_get_set_same.
Qed.

Lemma roundtrip_enum o values s b :
  enum_values o = Some values ->
  mem (JS.toLowerCase s) values = true ->
  (accessor o (VStr s) ;; accessor o VUndefined) b
  = mkOutcome (Normal (Val (VStr (JS.toLowerCase s))))
      (with_param b (option_key o) (VStr (JS.toLowerCase s))) [].
Proof.
  intros He Hin.
  assert (Hrun : accessor o (VStr s) b
                 = mkOutcome (Normal This)
                     (with_param b (option_key o)
                        (VStr (JS.toLowerCase s))) []).
  { rewrite (enum_accessor_string o values) by assumption.
    now rewrite Hin. }
  rewrite (bind_run _ _ _ _ _ Hrun).
  rewrite accessor_read; [| destruct o; discriminate | reflexivity].
  unfold with_param. simpl. now rewrite obj_get_set_same.
Qed.

Lemma roundtrip_fields_string b l s :
  stored_fields b = Some l ->
  result ((Document.fields (VStr s) ;; Document.fields VUndefined) b)
  = Normal (Val (VArr (l ++ [VStr s]))).
Proof.
  intros Hstored.
  rewrite (bind_run _ _ _ _ _ (fields_push b l Hstored s)).
  rewrite (fields_read _ (l ++ [VStr s]));
    [reflexivity | apply stored_fields_with_param | reflexivity].
Qed.

Lemma roundtrip_fields_array b l :
  result ((Document.fields (VArr l) ;; Document.fields VUndefined) b)
  = Normal (Val (VArr l)).
Proof.
  rewrite (bind_run _ _ _ _ _ (fields_overwrite b l)).
  rewrite (fields_read _ l);
    [reflexivity | apply stored_fields_with_param | reflexivity].
Qed.

End RoundTrip.

(** C6 as stated fails: [fields("a")] followed by [fields()] returns
    the sequence holding ["a"], not ["a"] itself. *)
Lemma set_then_get_exact_counterexample :
  ~ (forall o v b,
        accepts o v = true ->
        result ((accessor o v ;; accessor o VUndefined) b)
        = Normal (Val v)).
Proof.
  intros H.
  specialize (H Fields (VStr "a")
                (Document.Document (VStr "i") (VStr "t") VUndefined)
                eq_refl).
  discriminate H.
Qed.

(** C6, amended: calling an accessor with an accepted value and then
    without argument returns the value as stored: the very value passed
    for every option that stores verbatim (all but the enumerated ones
    and [fields], an enumerated one given an already lower-case string,
    [fields] given a sequence); the lower-case form of the string for an
    enumerated option; the stored sequence with the string appended for
    [fields] given a single string. *)
Theorem set_then_get (o : option_name) (v : value) (b : builder) :
  accepts o v = true ->
  fields_ok b = true ->
  result ((accessor o v ;; accessor o VUndefined) b)
  = Normal (Val (read_back o v b))
  /\ (stores_verbatim o v = true -> read_back o v b = v).
Proof.
  unfold accepts, fields_ok. intros Hacc Hok.
  apply andb_prop in Hacc. destruct Hacc as [Hv Hshape].
  apply negb_true_iff in Hv.
  destruct (enum_values o) as [values |] eqn:He.
  - destruct v as [| | | | s | |]; try discriminate.
    rewrite (roundtrip_enum o values) by assumption.
    assert (Ho : o <> Fields) by (intros ->; discriminate).
    unfold read_back, stores_verbatim. rewrite He.
    destruct o; try congruence; (split; [reflexivity |]);
      intros Hsame; apply String.eqb_eq in Hsame; congruence.
  - destruct (option_name_eq_dec o Fields) as [-> | Ho].
    + destruct (stored_fields b) as [l |] eqn:Hstored; [| discriminate].
      destruct v; try discriminate; cbn [accessor].
      * rewrite (roundtrip_fields_string b l) by assumption.
        unfold read_back, stores_verbatim. rewrite Hstored.
        split; [reflexivity | discriminate].
      * rewrite roundtrip_fields_array. split; reflexivity.
    + rewrite roundtrip_plain; try assumption.
      * unfold read_back, stores_verbatim. rewrite He.
        destruct o; try congruence; destruct v; split; reflexivity.
      * intros Hin. simpl in Hin.
        destruct Hin as [<- | [<- | [<- | []]]]; exact Hshape.
Qed.

Lemma set_then_get_witness :
  result ((accessor Routing (VStr "a b") ;; accessor Routing VUndefined)
            sample_saved)
  = Normal (Val (VStr "a b"))
  /\ result ((accessor Replication (VStr "Sync") ;;
              accessor Replication VUndefined) sample_saved)
     = Normal (Val (VStr "sync"))
  /\ result ((accessor Fields (VStr "z") ;; accessor Fields VUndefined)
               sample_saved)
     = Normal (Val (VArr [VStr "x"; VStr "y"; VStr "z"])).
Proof.
  split; [| split].
  - exact (proj1 (set_then_get Routing (VStr "a b") sample_saved
                    eq_refl eq_refl)).
  - exact (proj1 (set_then_get Replication (VStr "Sync") sample_saved
                    eq_refl eq_refl)).
  - exact (proj1 (set_then_get Fields (VStr "z") sample_saved
                    eq_refl eq_refl)).
Defined.

(** *** Shape checks *)

(** C9: a non-null argument of the wrong shape makes the accessor throw
    a type error at once: [fields] when the argument is neither a string
    nor a sequence, and [params], [upsert] and [source] when it is not a
    key-value object; for these three the builder, and so the stored
    option, is unchanged.  The client is never called. *)
Theorem shape_errors (v : value) (b : builder) :
  is_nullish v = false ->
  (isString v = false -> isArray v = false ->
   result (Document.fields v b)
   = Throw (TypeError "Argument must be string or array")
   /\ sent (Document.fields v b) = [])
  /\ (isObject v = false ->
      forall o, In o [Params; Upsert; Source] ->
        accessor o v b
        = mkOutcome (Throw (TypeError "Argument must be an object")) b []).
Proof.
  intros Hv. split.
  - intros Hs Ha. destruct b as [i t d p]. run_method.
    rewrite Hv, Hs, Ha.
    destruct (is_nullish (obj_get p "fields")); split; reflexivity.
  - intros Ho o Hin. destruct b as [i t d p]. simpl in Hin.
    destruct Hin as [<- | [<- | [<- | []]]]; run_method;
      rewrite Hv, Ho; reflexivity.
Qed.

Lemma shape_errors_witness :
  result (Document.fields (VNum 3) sample_saved)
  = Throw (TypeError "Argument must be string or array")
  /\ Document.source (VStr "text") sample_saved
     = mkOutcome (Throw (TypeError "Argument must be an object"))
         sample_saved [].
Proof.
  split.
  - exact (proj1 (proj1 (shape_errors (VNum 3) sample_saved eq_refl)
                    eq_refl eq_refl)).
  - exact (proj2 (shape_errors (VStr "text") sample_saved eq_refl)
             eq_refl Source (or_intror (or_intror (or_introl eq_refl)))).
Defined.

(** ** Dispatch: preconditions *)

(** C7: [doGet], [doUpdate] and [doDelete] on a builder whose index,
    type or id is unset throw a precondition error, the identity one
    when a client is configured and the client one otherwise, without
    calling the client and without changing the builder. *)
Theorem dispatch_requires_identity
    (op : operation) (client : option Client) (fnCallBack : callback)
    (b : builder) :
  In op [DoGet; DoUpdate; DoDelete] ->
  identity_unset b = true ->
  dispatch op client fnCallBack b
  = mkOutcome
      (Throw (Error (match client with
                     | Some _ => "Index, Type, and ID must be set"
                     | None => "No Client Set"
                     end)))
      b [].
Proof.
  unfold identity_unset. intros Hop Hunset. destruct b as [i t d p].
  cbn [var_index var_type var_id] in Hunset. simpl in Hop.
  destruct Hop as [<- | [<- | [<- | []]]]; destruct client as [c |];
    run_method; rewrite ?Hunset; reflexivity.
Qed.

Lemma dispatch_requires_identity_witness :
  identity_unset sample_unsaved = true
  /\ dispatch DoGet (Some sample_client) sample_callback sample_unsaved
     = mkOutcome (Throw (Error "Index, Type, and ID must be set"))
         sample_unsaved []
  /\ dispatch DoUpdate (Some sample_client) sample_callback sample_unsaved
     = mkOutcome (Throw (Error "Index, Type, and ID must be set"))
         sample_unsaved []
  /\ dispatch DoDelete (Some sample_client) sample_callback sample_unsaved
     = mkOutcome (Throw (Error "Index, Type, and ID must be set"))
         sample_unsaved [].
Proof.
  split; [reflexivity | split; [| split]].
  - exact (dispatch_requires_identity DoGet (Some sample_client)
             sample_callback
             sample_unsaved (or_introl eq_refl) eq_refl).
  - exact (dispatch_requires_identity DoUpdate (Some sample_client)
             sample_callback
             sample_unsaved (or_intror (or_introl eq_refl)) eq_refl).
  - exact (dispatch_requires_identity DoDelete (Some sample_client)
             sample_callback
             sample_unsaved
             (or_intror (or_intror (or_introl eq_refl))) eq_refl).
Defined.

(** C8: without a client each of the four dispatch methods throws the
    error [No Client Set], whatever the builder holds, calls nothing and
    changes nothing; with a client that error is never the outcome, so
    it is distinct from every error raised for a missing field. *)
Theorem dispatch_requires_client
    (op : operation) (fnCallBack : callback) (b : builder) :
  dispatch op None fnCallBack b
  = mkOutcome (Throw (Error "No Client Set")) b []
  /\ no_client_raised (dispatch op None fnCallBack b) = true
  /\ forall client,
       no_client_raised (dispatch op (Some client) fnCallBack b) = false.
Proof.
  split; [| split].
  - destruct op; reflexivity.
  - destruct op; reflexivity.
  - intros client. destruct b as [i t d p]. unfold no_client_raised.
    destruct op; run_method; split_ifs; reflexivity.
Qed.

(** ** Builders that calls can produce *)

Lemma identity_accessors_keep_params v b :
  var_params (final (Document.index v b)) = var_params b
  /\ var_params (final (Document.type v b)) = var_params b
  /\ var_params (final (Document.id v b)) = var_params b.
Proof.
  destruct b as [i t d p]. run_method.
  destruct (is_nullish v); repeat split.
Qed.

(** In every such builder the option object is an object and the stored
    [fields], if any, is a sequence: the assumptions made above hold
    wherever the methods can be called. *)
Lemma reachable_invariant b :
  reachable b -> well_formed (var_params b) /\ fields_ok b = true.
Proof.
  induction 1 as [i t d | v b _ [IHw IHf] | v b _ [IHw IHf]
                 | v b _ [IHw IHf] | o v b _ [IHw IHf]].
  - split; [apply Document_well_formed | reflexivity].
  - destruct (identity_accessors_keep_params v b) as [E _].
    unfold fields_ok, stored_fields in *. now rewrite E.
  - destruct (identity_accessors_keep_params v b) as [_ [E _]].
    unfold fields_ok, stored_fields in *. now rewrite E.
  - destruct (identity_accessors_keep_params v b) as [_ [_ E]].
    unfold fields_ok, stored_fields in *. now rewrite E.
  - split; [now apply accessor_well_formed | now apply accessor_fields_ok].
Qed.

(** * Further properties of the builder *)

(** ** What one accessor call can do *)

Section AccessorEffect.

Lemma fields_effect v b :
  sent (Document.fields v b) = []
  /\ var_index (final (Document.fields v b)) = var_index b
  /\ var_type (final (Document.fields v b)) = var_type b
  /\ var_id (final (Document.fields v b)) = var_id b
  /\ (var_params (final (Document.fields v b)) = var_params b
      \/ exists v', is_nullish v' = false
                    /\ var_params (final (Document.fields v b))
                       = obj_set (var_params b) "fields" v').
Proof.
  destruct b as [i t d p]. run_method.
  destruct (obj_get p "fields") eqn:E; cbn [is_nullish];
    destruct v; cbn [is_nullish isString isArray];
    rewrite ?obj_get_set_same, ?E; cbn; rewrite ?obj_set_set;
    repeat split; auto;
    right; eexists; (split; [| reflexivity]); reflexivity.
Qed.

(** An accessor sends nothing, keeps the identity variables, and either
    leaves the option object alone or writes one non-null value under
    its own name. *)
Lemma accessor_effect o v b :
  sent (accessor o v b) = []
  /\ var_index (final (accessor o v b)) = var_index b
  /\ var_type (final (accessor o v b)) = var_type b
  /\ var_id (final (accessor o v b)) = var_id b
  /\ (var_params (final (accessor o v b)) = var_params b
      \/ exists v', is_nullish v' = false
                    /\ var_params (final (accessor o v b))
                       = obj_set (var_params b) (option_key o) v').
Proof.
  destruct o; try apply fields_effect.
  all: destruct b as [i t d p]; run_method.
  all: destruct v; cbn [is_nullish isObject negb]; cbn.
  all: try (repeat split; auto; fail).
  all: split_ifs; cbn; repeat split; auto.
  all: right; eexists; (split; [| reflexivity]); reflexivity.
Qed.

End AccessorEffect.

Section AccessorFacts.

Lemma option_key_inj o o' : option_key o = option_key o' -> o = o'.
Proof. destruct o, o'; intros H; (reflexivity || discriminate H). Qed.

Lemma option_key_listed o : In (option_key o) (map option_key all_options).
Proof. apply in_map. destruct o; simpl; tauto. Qed.

Lemma Forall_obj_set (P : string * value -> Prop) (o : obj) k v :
  Forall P o -> P (k, v) -> Forall P (obj_set o k v).
Proof.
  intros Ho Hkv. induction Ho as [| [k0 v0] o H0 Ho IH]; simpl.
  - now constructor.
  - destruct (String.eqb_spec k0 k) as [-> | _]; constructor; assumption.
Qed.

Lemma keys_obj_set_cases (o : obj) k v :
  keys (obj_set o k v) = keys o
  \/ (has o k = false /\ keys (obj_set o k v) = (keys o ++ [k])%list).
Proof.
  destruct (has o k) eqn:Hhas.
  - left. apply keys_obj_set_present. now apply has_In.
  - right. split; [reflexivity |].
    rewrite obj_set_fresh by now apply has_false_not_In.
    unfold keys. now rewrite map_app.
Qed.

End AccessorFacts.



(** X7: an accessor call never removes or reorders the stored options:
    the names in the option object stay as they are, or the accessor's
    own name, absent before, is added after them. *)
Theorem accessor_keys (o : option_name) (v : value) (b : builder) :
  keys (var_params (final (accessor o v b))) = keys (var_params b)
  \/ (has (var_params b) (option_key o) = false
      /\ keys (var_params (final (accessor o v b)))
         = (keys (var_params b) ++ [option_key o])%list).
Proof.
  destruct (accessor_effect o v b) as [_ [_ [_ [_ Hp]]]].
  destruct Hp as [-> | [v' [_ ->]]]; [now left |].
  apply keys_obj_set_cases.
Qed.

Section ReachableFacts.

Lemma reachable_stored b : reachable b -> Forall stored_ok (var_params b).
Proof.
  induction 1 as [i t d | v b _ IH | v b _ IH | v b _ IH | o v b _ IH].
  - constructor.
  - now rewrite (proj1 (identity_accessors_keep_params v b)).
  - now rewrite (proj1 (proj2 (identity_accessors_keep_params v b))).
  - now rewrite (proj2 (proj2 (identity_accessors_keep_params v b))).
  - destruct (accessor_effect o v b) as [_ [_ [_ [_ Hp]]]].
    destruct Hp as [-> | [v' [Hv' ->]]]; [assumption |].
    apply Forall_obj_set; [assumption |].
    split; [apply option_key_listed | exact Hv'].
Qed.

Lemma stored_ok_lookup (o : obj) k :
  Forall stored_ok o -> has o k = true ->
  is_nullish (obj_get o k) = false.
Proof.
  intros Ho. induction Ho as [| [k0 v0] o [_ H0] _ IH]; simpl.
  - discriminate.
  - unfold has. simpl. rewrite (String.eqb_sym k k0).
    destruct (String.eqb k0 k); [intros _; exact H0 | exact IH].
Qed.

Lemma accessor_enum_ok o values v b :
  enum_values o = Some values ->
  enum_ok values (obj_get (var_params b) (option_key o)) = true ->
  enum_ok values
    (obj_get (var_params (final (accessor o v b))) (option_key o)) = true.
Proof.
  intros He Hok.
  assert (Ho : o <> Fields) by (intros ->; discriminate).
  destruct (is_nullish v) eqn:Hv.
  - now rewrite accessor_read.
  - destruct (isString v) eqn:Hs.
    + destruct v; try discriminate.
      rewrite (enum_accessor_string o values) by assumption. simpl.
      destruct (mem (JS.toLowerCase s) values) eqn:Hin; [| assumption].
      simpl. now rewrite obj_get_set_same.
    + now rewrite (enum_accessor_non_string o values).
Qed.

End ReachableFacts.

(** X8: in every builder produced from the constructor by accessor calls
    each stored property carries the name of one of the options and a
    value that is not null, so a name is present in the option object
    exactly when the option is set. *)
Theorem reachable_options_set (b : builder) :
  reachable b ->
  Forall stored_ok (var_params b)
  /\ forall k, has (var_params b) k = is_set (var_params b) k.
Proof.
  intros Hr. pose proof (reachable_stored b Hr) as Hst.
  split; [exact Hst |].
  intros k. unfold is_set. destruct (has (var_params b) k) eqn:Hhas.
  - now rewrite (stored_ok_lookup _ _ Hst Hhas).
  - apply has_false_not_In in Hhas. now rewrite obj_get_absent.
Qed.

Lemma reachable_sample_saved : reachable sample_saved.
Proof.
  exact (reach_option Script (VStr "s") _
           (reach_option Fields (VArr [VStr "x"; VStr "y"]) _
              (reach_option Routing (VStr "a b") _
                 (reach_option Source sample_source _
                    (reach_new (VStr "i") (VStr "t") (VStr "5")))))).
Defined.

Lemma reachable_options_set_witness :
  reachable sample_saved
  /\ Forall stored_ok (var_params sample_saved)
  /\ has (var_params sample_saved) "lang"
     = is_set (var_params sample_saved) "lang".
Proof.
  split; [exact reachable_sample_saved | split].
  - exact (proj1 (reachable_options_set sample_saved
                    reachable_sample_saved)).
  - exact (proj2 (reachable_options_set sample_saved
                    reachable_sample_saved) "lang").
Defined.

(** X9: in every builder produced from the constructor by accessor calls
    an enumerated option is absent or holds one of the strings of its
    value set. *)
Theorem reachable_enum_valid
    (b : builder) (o : option_name) (values : list string) :
  reachable b ->
  enum_values o = Some values ->
  enum_ok values (obj_get (var_params b) (option_key o)) = true.
Proof.
  intros Hr He.
  induction Hr as [i t d | v b _ IH | v b _ IH | v b _ IH | o' v b _ IH].
  - reflexivity.
  - now rewrite (proj1 (identity_accessors_keep_params v b)).
  - now rewrite (proj1 (proj2 (identity_accessors_keep_params v b))).
  - now rewrite (proj2 (proj2 (identity_accessors_keep_params v b))).
  - destruct (option_name_eq_dec o' o) as [-> | Hne].
    + now apply accessor_enum_ok.
    + destruct (accessor_effect o' v b) as [_ [_ [_ [_ Hp]]]].
      destruct Hp as [-> | [v' [_ ->]]]; [assumption |].
      rewrite obj_get_set_other; [assumption |].
      intros Heq. apply option_key_inj in Heq. contradiction.
Qed.

Lemma reachable_enum_valid_witness :
  enum_ok ["async"; "sync"; "default"]
    (obj_get
       (var_params (final (accessor Replication (VStr "SYNC") sample_saved)))
       "replication") = true.
Proof.
  exact (reachable_enum_valid _ Replication _
           (reach_option Replication (VStr "SYNC") _ reachable_sample_saved)
           eq_refl).
Defined.

(** ** The identity accessors *)

(** X5: [index], [type] and [id] called with a non-null value store it
    in their own variable, leaving the two others and the options alone,
    and return the builder; called afterwards without argument they
    return that value; called with null they only read. *)
Theorem identity_set_then_get
    (n : identity_name) (v w : value) (b : builder) :
  is_nullish v = false ->
  is_nullish w = true ->
  identity_accessor n v b = mkOutcome (Normal This) (with_identity n v b) []
  /\ (identity_accessor n v ;; identity_accessor n w) b
     = mkOutcome (Normal (Val v)) (with_identity n v b) []
  /\ identity_accessor n w b
     = mkOutcome (Normal (Val (identity_var n b))) b [].
Proof.
  intros Hv Hw. destruct b as [i t d p].
  destruct n; cbn [identity_accessor with_identity identity_var];
    run_method; rewrite Hv, Hw; repeat split.
Qed.

Lemma identity_set_then_get_witness :
  (Document.id (VStr "7") ;; Document.id VUndefined) sample_unsaved
  = mkOutcome (Normal (Val (VStr "7")))
      (mkBuilder (VStr "i") (VStr "t") (VStr "7")
         (var_params sample_unsaved)) [].
Proof.
  exact (proj1 (proj2 (identity_set_then_get Id (VStr "7") VUndefined
                         sample_unsaved eq_refl eq_refl))).
Defined.

(** X10: no accessor call can clear index, type or id: a builder whose
    three identity variables are set keeps them set after any identity
    accessor call and after any option accessor call. *)
Theorem identity_stays_set (b : builder) :
  identity_unset b = false ->
  (forall n v, identity_unset (final (identity_accessor n v b)) = false)
  /\ (forall o v, identity_unset (final (accessor o v b)) = false).
Proof.
  unfold identity_unset. intros Hset. split.
  - intros n v. destruct b as [i t d p].
    cbn [var_index var_type var_id] in Hset.
    apply orb_false_elim in Hset. destruct Hset as [Hit Hd].
    apply orb_false_elim in Hit. destruct Hit as [Hi Ht].
    destruct n; cbn [identity_accessor]; run_method;
      destruct (is_nullish v) eqn:Hv; cbn;
      rewrite ?Hi, ?Ht, ?Hd, ?Hv; reflexivity.
  - intros o v.
    destruct (accessor_effect o v b) as [_ [-> [-> [-> _]]]].
    exact Hset.
Qed.

Lemma identity_stays_set_witness :
  identity_unset (final (Document.id VNull sample_saved)) = false
  /\ identity_unset (final (Document.routing (VStr "r") sample_saved))
     = false.
Proof.
  split.
  - exact (proj1 (identity_stays_set sample_saved eq_refl) Id VNull).
  - exact (proj2 (identity_stays_set sample_saved eq_refl)
             Routing (VStr "r")).
Defined.

(** ** Dispatch: fetch, remove and the failures of store *)

(** X1: with a client and index, type and id set, [doGet] hands the
    client one GET to [/index/type/id], to which no query string is ever
    appended; the options travel as an object that leaves out the
    body-only names and carries sequences joined with a comma, without
    URL-encoding.  The builder is unchanged and the client's answer is
    returned. *)
Theorem doGet_request
    (client : Client) (fnCallBack : callback) (b : builder) :
  identity_unset b = false ->
  well_formed (var_params b) ->
  let url := "/" ++ JS.toStr (var_index b) ++ "/" ++ JS.toStr (var_type b)
             ++ "/" ++ JS.toStr (var_id b) in
  let req :=
    mkRequest GET url (VObj (client_params_spec (var_params b)))
      fnCallBack in
  Document.doGet (Some client) fnCallBack b
  = mkOutcome (Normal (Val (client req))) b [req].
Proof.
  unfold identity_unset. intros Hset Hwf. cbv zeta.
  rewrite <- (genClientParams_loop_spec _ Hwf).
  destruct b as [i t d p]. cbn [var_index var_type var_id var_params] in *.
  run_method. rewrite Hset. reflexivity.
Qed.

Lemma sample_saved_well_formed : well_formed (var_params sample_saved).
Proof. repeat constructor; simpl; intuition discriminate. Defined.

Lemma doGet_request_witness :
  Document.doGet (Some sample_client) sample_callback sample_saved
  = mkOutcome (Normal (Val (VStr "/i/t/5"))) sample_saved
      [mkRequest GET "/i/t/5"
         (VObj [("routing", VStr "a b"); ("fields", VStr "x,y")])
         sample_callback].
Proof.
  exact (doGet_request sample_client sample_callback sample_saved
           eq_refl sample_saved_well_formed).
Defined.

(** X2: with a client and index, type and id set, [doDelete] hands the
    client one DELETE to [/index/type/id], followed by [?] and the
    renderer output when that output is not empty, with the empty string
    as body.  The builder is unchanged and the client's answer is
    returned. *)
Theorem doDelete_request
    (client : Client) (fnCallBack : callback) (b : builder) :
  identity_unset b = false ->
  let paramStr := paramStr_of (var_params b) in
  let path := "/" ++ JS.toStr (var_index b) ++ "/" ++ JS.toStr (var_type b)
              ++ "/" ++ JS.toStr (var_id b) in
  let url := if paramStr =? "" then path else path ++ "?" ++ paramStr in
  let req := mkRequest DELETE url (VStr "") fnCallBack in
  Document.doDelete (Some client) fnCallBack b
  = mkOutcome (Normal (Val (client req))) b [req].
Proof.
  unfold identity_unset. intros Hset. cbv zeta.
  destruct b as [i t d p]. cbn [var_index var_type var_id var_params] in *.
  unfold paramStr_of. run_method. rewrite Hset. cbv beta iota.
  match goal with
  | |- context [?s =? ""] => destruct (s =? "")
  end; reflexivity.
Qed.

Lemma doDelete_request_witness :
  Document.doDelete (Some sample_client) sample_callback sample_saved
  = mkOutcome (Normal (Val (VStr "/i/t/5?routing=a%20b&fields=x%2Cy")))
      sample_saved
      [mkRequest DELETE "/i/t/5?routing=a%20b&fields=x%2Cy" (VStr "")
         sample_callback].
Proof.
  exact (doDelete_request sample_client sample_callback sample_saved
           eq_refl).
Defined.

(** X3: with a client, [doIndex] without index or type throws
    [Index and Type must be set], and with both but without a source it
    throws [No source document found]; in either case the client is not
    called and the builder is unchanged.  Whether id is set plays no
    part. *)
Theorem doIndex_preconditions
    (client : Client) (fnCallBack : callback) (b : builder) :
  (is_nullish (var_index b) || is_nullish (var_type b))
  || negb (is_set (var_params b) "source") = true ->
  Document.doIndex (Some client) fnCallBack b
  = mkOutcome
      (Throw (Error (if is_nullish (var_index b) || is_nullish (var_type b)
                     then "Index and Type must be set"
                     else "No source document found")))
      b [].
Proof.
  unfold is_set. intros Hpre. destruct b as [i t d p].
  cbn [var_index var_type var_id var_params] in *. run_method.
  destruct (is_nullish i || is_nullish t); [reflexivity |].
  cbv beta iota. simpl in Hpre. rewrite negb_involutive in Hpre.
  rewrite Hpre. reflexivity.
Qed.

Lemma doIndex_preconditions_witness :
  Document.doIndex (Some sample_client) sample_callback sample_scripted
  = mkOutcome (Throw (Error "No source document found")) sample_scripted []
  /\ Document.doIndex (Some sample_client) sample_callback
       (Document.Document VUndefined (VStr "t") (VStr "5"))
     = mkOutcome (Throw (Error "Index and Type must be set"))
         (Document.Document VUndefined (VStr "t") (VStr "5")) [].
Proof.
  split.
  - exact (doIndex_preconditions sample_client sample_callback
             sample_scripted eq_refl).
  - exact (doIndex_preconditions sample_client sample_callback
             (Document.Document VUndefined (VStr "t") (VStr "5")) eq_refl).
Defined.

(** X4: each of the four dispatch methods leaves the builder as it was;
    when it throws it has called nothing, and when it returns it has
    handed the client exactly one request, carrying the caller's
    callback, and returns the client's answer to it. *)
Theorem dispatch_single_call
    (op : operation) (client : option Client) (fnCallBack : callback)
    (b : builder) :
  final (dispatch op client fnCallBack b) = b
  /\ single_call client fnCallBack (dispatch op client fnCallBack b).
Proof.
  split; [apply dispatch_final |].
  unfold single_call. destruct b as [i t d p].
  destruct op, client as [c |]; run_method; try exact I.
  all: split_ifs; cbn; try exact I; split; reflexivity.
Qed.

(** ** Accessors: how calls compose *)

Section AccessorComposition.

Lemma accessor_accepted_run o v b :
  o <> Fields -> accepts o v = true ->
  accessor o v b
  = mkOutcome (Normal This)
      (with_param b (option_key o) (read_back o v b)) [].
Proof.
  unfold accepts. intros Ho Hacc.
  apply andb_prop in Hacc. destruct Hacc as [Hv Hshape].
  apply negb_true_iff in Hv.
  destruct (enum_values o) as [values |] eqn:He.
  - destruct v as [| | | | s | |]; try discriminate.
    rewrite (enum_accessor_string o values) by assumption.
    rewrite Hshape. unfold read_back. rewrite He.
    destruct o; try congruence; reflexivity.
  - rewrite accessor_store; try assumption.
    + unfold read_back. rewrite He.
      destruct o; try congruence; destruct v; reflexivity.
    + intros Hin. simpl in Hin.
      destruct o; try congruence; try exact Hshape;
        exfalso; intuition discriminate.
Qed.

Lemma read_back_state o v b b' :
  o <> Fields -> read_back o v b = read_back o v b'.
Proof. intros Ho. destruct o; try congruence; reflexivity. Qed.

End AccessorComposition.

(** X11: for every option but [fields], the last accepted value wins:
    two accepted calls of the same accessor leave the builder exactly as
    the second call alone does, the option keeping its place among the
    others. *)
Theorem last_write_wins (o : option_name) (v1 v2 : value) (b : builder) :
  o <> Fields ->
  accepts o v1 = true ->
  accepts o v2 = true ->
  (accessor o v1 ;; accessor o v2) b = accessor o v2 b.
Proof.
  intros Ho H1 H2.
  rewrite (bind_run _ _ _ _ _ (accessor_accepted_run o v1 b Ho H1)).
  rewrite !accessor_accepted_run by assumption.
  rewrite (read_back_state o v2 _ b Ho).
  unfold with_param. simpl. now rewrite obj_set_set.
Qed.

Lemma last_write_wins_witness :
  (accessor Routing (VStr "first") ;; accessor Routing (VStr "second"))
    sample_saved
  = accessor Routing (VStr "second") sample_saved.
Proof.
  assert (Ho : Routing <> Fields) by discriminate.
  exact (last_write_wins Routing (VStr "first") (VStr "second")
           sample_saved Ho eq_refl eq_refl).
Defined.

(** X12: the enumerated accessors do not see the case of their
    argument: two strings with the same lower-case form have the same
    effect and the same result, whether they are accepted or ignored. *)
Theorem enum_case_insensitive
    (o : option_name) (values : list string) (s s' : string) (b : builder) :
  enum_values o = Some values ->
  JS.toLowerCase s = JS.toLowerCase s' ->
  accessor o (VStr s) b = accessor o (VStr s') b.
Proof.
  intros He Hs.
  rewrite !(enum_accessor_string o values) by assumption.
  now rewrite Hs.
Qed.

Lemma enum_case_insensitive_witness :
  accessor Consistency (VStr "Quorum") sample_saved
  = accessor Consistency (VStr "QUORUM") sample_saved.
Proof.
  exact (enum_case_insensitive Consistency _ "Quorum" "QUORUM" sample_saved
           eq_refl eq_refl).
Defined.

Section QueryNonEmpty.

Lemma paramStr_of_nonempty (params : obj) k :
  well_formed params -> has params k = true ->
  Document.skipped k = false ->
  paramStr_of params <> "".
Proof.
  intros Hwf Hhas Hk Hempty.
  rewrite paramStr_of_spec in Hempty by assumption.
  unfold query_string_spec in Hempty.
  apply join_empty_iff in Hempty.
  - apply map_eq_nil in Hempty.
    assert (Hin : In k (keys (client_params_spec params))).
    { rewrite keys_client_params_spec. apply filter_In.
      split; [now apply has_In | now rewrite Hk]. }
    rewrite Hempty in Hin. contradiction.
  - intros p Hp. apply in_map_iff in Hp.
    destruct Hp as [kv [<- _]]. apply pair_text_nonempty.
Qed.

Lemma obj_get_defined_has (o : obj) k :
  obj_get o k <> VUndefined -> has o k = true.
Proof.
  intros Hget. destruct (has o k) eqn:Hhas; [reflexivity |].
  apply has_false_not_In in Hhas. now rewrite obj_get_absent in Hget.
Qed.

End QueryNonEmpty.

(** X13: whatever its argument, a call of [fields] on a builder without
    stored fields leaves a sequence stored: the argument alone for a
    string, the argument itself for a sequence, and the empty sequence
    when the call only reads or throws.  After the call the query string
    of the builder is not empty. *)
Theorem fields_always_initialises (v : value) (b : builder) :
  is_nullish (obj_get (var_params b) "fields") = true ->
  well_formed (var_params b) ->
  let b' := final (Document.fields v b) in
  obj_get (var_params b') "fields"
  = VArr (match v with
          | VStr _ => [v]
          | VArr l => l
          | _ => []
          end)
  /\ paramStr_of (var_params b') <> "".
Proof.
  intros Hnull Hwf. cbv zeta.
  assert (Hstored :
            obj_get (var_params (final (Document.fields v b))) "fields"
            = VArr (match v with
                    | VStr _ => [v]
                    | VArr l => l
                    | _ => []
                    end)).
  { destruct b as [i t d p]. cbn [var_params] in *. run_method.
    rewrite Hnull. cbv beta iota.
    destruct v; cbn [is_nullish isString isArray];
      rewrite ?obj_get_set_same; cbn; rewrite ?obj_get_set_same;
      reflexivity. }
  split; [exact Hstored |].
  apply (paramStr_of_nonempty _ "fields").
  - now apply fields_well_formed.
  - apply obj_get_defined_has. rewrite Hstored. discriminate.
  - reflexivity.
Qed.

Lemma fields_always_initialises_witness :
  obj_get (var_params (final (Document.fields VUndefined sample_unsaved)))
    "fields" = VArr []
  /\ paramStr_of
       (var_params (final (Document.fields VUndefined sample_unsaved)))
     <> "".
Proof.
  assert (Hwf : well_formed (var_params sample_unsaved))
    by (repeat constructor; simpl; intuition discriminate).
  exact (fields_always_initialises VUndefined sample_unsaved eq_refl Hwf).
Defined.

(** ** Introspection *)

Section ToString.

Lemma stringify_object (ps : obj) :
  Forall (fun kv => is_nullish (snd kv) = false) ps ->
  JS.stringify (VObj ps)
  = Some ("{" ++ JS.join "," (map json_member ps) ++ "}").
Proof.
  intros Hps. cbn [JS.stringify].
  match goal with
  | |- Some (_ ++ JS.join _ ?members ++ _) = _ =>
      assert (Hm : members = map json_member ps)
  end.
  { induction Hps as [| [k v] ps Hv _ IH]; [reflexivity |].
    cbn [map]. rewrite <- IH. unfold json_member, json_text. cbn [fst snd].
    destruct (stringify_defined v) as [text Htext].
    - intros ->. discriminate.
    - now rewrite Htext. }
  now rewrite Hm.
Qed.

End ToString.

(** X14: on every builder produced from the constructor by accessor
    calls, [toString] returns the JSON text of an object with exactly one
    member per stored option, in the order in which the options were
    first set; index, type and id are not part of it, and the builder is
    unchanged. *)
Theorem toString_text (b : builder) :
  reachable b ->
  Document.toString b
  = mkOutcome
      (Normal (Val (VStr ("{" ++ JS.join "," (map json_member (var_params b))
                          ++ "}"))))
      b [].
Proof.
  intros Hr. unfold Document.toString, JS.JSON_stringify.
  rewrite (bind_run _ _ _ (var_params b) b eq_refl).
  rewrite stringify_object; [reflexivity |].
  eapply Forall_impl; [| exact (reachable_stored b Hr)].
  intros kv [_ Hv]. exact Hv.
Qed.

Lemma toString_text_witness :
  Document.toString sample_saved
  = mkOutcome
      (Normal
         (Val (VStr ("{" ++ dq ++ "source" ++ dq ++ ":{"
                     ++ dq ++ "f" ++ dq ++ ":1},"
                     ++ dq ++ "routing" ++ dq ++ ":" ++ dq ++ "a b" ++ dq
                     ++ "," ++ dq ++ "fields" ++ dq ++ ":["
                     ++ dq ++ "x" ++ dq ++ "," ++ dq ++ "y" ++ dq ++ "],"
                     ++ dq ++ "script" ++ dq ++ ":" ++ dq ++ "s" ++ dq
                     ++ "}"))))
      sample_saved [].
Proof.
  exact (toString_text sample_saved reachable_sample_saved).
Defined.

(** ** Accessors and the two renderers *)

Section RendererFrames.

Lemma client_params_spec_set_skipped (params : obj) k v :
  Document.skipped k = true ->
  client_params_spec (obj_set params k v) = client_params_spec params.
Proof.
  intros Hk. unfold client_params_spec, eligible.
  induction params as [| [k0 v0] params IH]; simpl.
  - now rewrite Hk.
  - destruct (String.eqb_spec k0 k) as [-> | _]; simpl.
    + now rewrite Hk.
    + destruct (Document.skipped k0); simpl; now rewrite IH.
Qed.

Lemma client_params_spec_set_fresh (params : obj) k v :
  Document.skipped k = false -> ~ In k (keys params) ->
  client_params_spec (obj_set params k v)
  = (client_params_spec params ++ [(k, client_value v)])%list.
Proof.
  intros Hk Hfresh. rewrite obj_set_fresh by assumption.
  rewrite client_params_spec_app. f_equal.
  unfold client_params_spec, eligible. simpl. now rewrite Hk.
Qed.

Lemma encode_client_value v :
  JS.encodeURIComponent (client_value v) = JS.encodeURIComponent v.
Proof. destruct v; reflexivity. Qed.

Lemma string_app_assoc (s t u : string) : (s ++ t) ++ u = s ++ t ++ u.
Proof. induction s as [| c s IH]; simpl; congruence. Qed.

Lemma join_snoc sep (parts : list string) (p : string) :
  JS.join sep (parts ++ [p])
  = match parts with
    | [] => p
    | _ => JS.join sep parts ++ sep ++ p
    end.
Proof.
  induction parts as [| q parts IH]; [reflexivity |].
  destruct parts as [| q' parts].
  - reflexivity.
  - change (JS.join sep ((q :: q' :: parts) ++ [p]))
      with (q ++ sep ++ JS.join sep ((q' :: parts) ++ [p])).
    rewrite IH.
    change (JS.join sep (q :: q' :: parts))
      with (q ++ sep ++ JS.join sep (q' :: parts)).
    now rewrite !string_app_assoc.
Qed.


End RendererFrames.

(** X15: setting [script], [lang], [params], [upsert] or [source] never
    changes the query string of the builder, whatever the argument. *)
Theorem body_options_keep_query
    (o : option_name) (v : value) (b : builder) :
  In o [Script; Lang; Params; Upsert; Source] ->
  well_formed (var_params b) ->
  paramStr_of (var_params (final (accessor o v b)))
  = paramStr_of (var_params b).
Proof.
  intros Ho Hwf.
  destruct (accessor_effect o v b) as [_ [_ [_ [_ Hp]]]].
  destruct Hp as [-> | [v' [_ ->]]]; [reflexivity |].
  rewrite !paramStr_of_spec
    by (assumption || now apply obj_set_well_formed).
  unfold query_string_spec.
  rewrite client_params_spec_set_skipped; [reflexivity |].
  simpl in Ho. destruct Ho as [<- | [<- | [<- | [<- | [<- | []]]]]];
    reflexivity.
Qed.

Lemma body_options_keep_query_witness :
  paramStr_of
    (var_params (final (accessor Upsert (VObj [("n", VNum 0)]) sample_saved)))
  = "routing=a%20b&fields=x%2Cy".
Proof.
  exact (body_options_keep_query Upsert (VObj [("n", VNum 0)]) sample_saved
           (or_intror (or_intror (or_intror (or_introl eq_refl))))
           sample_saved_well_formed).
Defined.



(** X17: setting for the first time an option that is neither
    enumerated, nor [fields], nor body-only appends its pair to the query
    string: the old string, [&] when the old string was not empty, the
    option's name, [=], and the URL-encoded argument. *)
Theorem new_option_extends_query
    (o : option_name) (v : value) (b : builder) :
  enum_values o = None ->
  ~ In o [Fields; Script; Lang; Params; Upsert; Source] ->
  is_nullish v = false ->
  has (var_params b) (option_key o) = false ->
  well_formed (var_params b) ->
  paramStr_of (var_params (final (accessor o v b)))
  = add_pair (paramStr_of (var_params b))
      (option_key o ++ "=" ++ JS.encodeURIComponent v).
Proof.
  intros He Ho Hv Hfresh Hwf.
  assert (Hskip : Document.skipped (option_key o) = false)
    by (destruct o; try reflexivity; exfalso; apply Ho; simpl; tauto).
  rewrite accessor_store; try assumption.
  - unfold with_param. cbn [final var_params].
    rewrite !paramStr_of_spec
      by (assumption || now apply obj_set_well_formed).
    unfold query_string_spec, add_pair.
    rewrite client_params_spec_set_fresh
      by (assumption || now apply has_false_not_In).
    rewrite map_app. cbn [map]. rewrite join_snoc.
    replace (pair_text (option_key o, client_value v))
      with (option_key o ++ "=" ++ JS.encodeURIComponent v)
      by (unfold pair_text; cbn [fst snd];
          now rewrite encode_client_value).
    destruct (client_params_spec (var_params b)) as [| kv cps] eqn:E.
    + reflexivity.
    + destruct (String.eqb_spec (JS.join "&" (map pair_text (kv :: cps))) "")
        as [Hempty | _]; [| reflexivity].
      exfalso. apply join_empty_iff in Hempty; [discriminate |].
      intros p Hp. apply in_map_iff in Hp.
      destruct Hp as [kv' [<- _]]. apply pair_text_nonempty.
  - intros ->. apply Ho. simpl. tauto.
  - intros Hin. exfalso. apply Ho. simpl in *. tauto.
Qed.

Lemma new_option_extends_query_witness :
  paramStr_of
    (var_params (final (accessor Timeout (VStr "5m&x=1") sample_saved)))
  = "routing=a%20b&fields=x%2Cy&timeout=5m%26x%3D1".
Proof.
  assert (Ho : ~ In Timeout [Fields; Script; Lang; Params; Upsert; Source])
    by (simpl; intuition discriminate).
  exact (new_option_extends_query Timeout (VStr "5m&x=1") sample_saved
           eq_refl Ho eq_refl eq_refl sample_saved_well_formed).
Defined.

(** ** Separators in the query string *)

Section Separators.

Lemma count_char_app c (s t : string) :
  count_char c (s ++ t) = count_char c s + count_char c t.
Proof. induction s as [| c0 s IH]; simpl; [reflexivity | lia]. Qed.

Lemma count_char_join c sep (parts : list string) :
  count_char c (JS.join sep parts)
  = list_sum (map (count_char c) parts)
    + pred (List.length parts) * count_char c sep.
Proof.
  induction parts as [| p parts IH]; [reflexivity |].
  destruct parts as [| q parts].
  - simpl. lia.
  - change (JS.join sep (p :: q :: parts))
      with (p ++ sep ++ JS.join sep (q :: parts)).
    rewrite !count_char_app, IH. simpl. lia.
Qed.

Lemma hex_digit_not_separator n :
  n < 16 ->
  Ascii.eqb (JS.hex_digit true n) "&" = false
  /\ Ascii.eqb (JS.hex_digit true n) "=" = false.
Proof.
  intros Hn.
  do 16 (destruct n as [| n]; [split; reflexivity |]). lia.
Qed.

Lemma unreserved_not_separator c :
  JS.uri_unreserved c = true ->
  Ascii.eqb c "&" = false /\ Ascii.eqb c "=" = false.
Proof.
  intros Hc. split.
  - destruct (Ascii.eqb_spec c "&") as [-> | _]; [discriminate | reflexivity].
  - destruct (Ascii.eqb_spec c "=") as [-> | _]; [discriminate | reflexivity].
Qed.

Lemma nat_of_ascii_bound c : nat_of_ascii c < 256.
Proof.
  destruct c as [[|] [|] [|] [|] [|] [|] [|] [|]]; vm_compute; lia.
Qed.

Lemma percent_encode_no_separator (s : string) :
  count_char "&" (JS.percent_encode s) = 0
  /\ count_char "=" (JS.percent_encode s) = 0.
Proof.
  induction s as [| c s [IHa IHe]]; [split; reflexivity |].
  cbn [JS.percent_encode].
  destruct (JS.uri_unreserved c) eqn:Hc.
  - destruct (unreserved_not_separator c Hc) as [Ha He].
    cbn [count_char]. rewrite Ha, He, IHa, IHe. split; reflexivity.
  - pose proof (nat_of_ascii_bound c) as Hb.
    assert (Hhi : nat_of_ascii c / 16 < 16)
      by (apply Nat.Div0.div_lt_upper_bound; lia).
    assert (Hlo : nat_of_ascii c mod 16 < 16)
      by (apply Nat.mod_upper_bound; lia).
    destruct (hex_digit_not_separator _ Hhi) as [Ha1 He1].
    destruct (hex_digit_not_separator _ Hlo) as [Ha2 He2].
    cbv zeta. cbn [count_char].
    rewrite Ha1, He1, Ha2, He2, IHa, IHe. split; reflexivity.
Qed.

Lemma option_key_no_separator k :
  In k (map option_key all_options) ->
  count_char "&" k = 0 /\ count_char "=" k = 0.
Proof.
  simpl. intros H.
  repeat (destruct H as [<- | H]; [split; reflexivity |]).
  contradiction.
Qed.

Lemma pair_text_separators k v :
  In k (map option_key all_options) ->
  count_char "&" (pair_text (k, v)) = 0
  /\ count_char "=" (pair_text (k, v)) = 1.
Proof.
  intros Hk. destruct (option_key_no_separator k Hk) as [Ha He].
  destruct (percent_encode_no_separator (JS.toStr v)) as [Ha' He'].
  unfold pair_text, JS.encodeURIComponent. cbn [fst snd].
  rewrite !count_char_app, Ha, He, Ha', He'. split; reflexivity.
Qed.

Lemma client_params_spec_cons k v (params : obj) :
  client_params_spec ((k, v) :: params)
  = if Document.skipped k then client_params_spec params
    else (k, client_value v) :: client_params_spec params.
Proof.
  unfold client_params_spec, eligible. simpl.
  destruct (Document.skipped k); reflexivity.
Qed.

Lemma eligible_cons k v (params : obj) :
  eligible ((k, v) :: params)
  = if Document.skipped k then eligible params
    else (k, v) :: eligible params.
Proof.
  unfold eligible. simpl. destruct (Document.skipped k); reflexivity.
Qed.

Lemma list_sum_cons x (l : list nat) : list_sum (x :: l) = x + list_sum l.
Proof. reflexivity. Qed.

Lemma pairs_separators (params : obj) :
  Forall stored_ok params ->
  list_sum (map (count_char "&")
              (map pair_text (client_params_spec params))) = 0
  /\ list_sum (map (count_char "=")
                 (map pair_text (client_params_spec params)))
     = List.length (eligible params).
Proof.
  induction 1 as [| [k v] params [Hk _] _ [IHa IHe]]; [split; reflexivity |].
  rewrite client_params_spec_cons, eligible_cons.
  destruct (Document.skipped k).
  - split; assumption.
  - cbn [map List.length]. rewrite !list_sum_cons.
    destruct (pair_text_separators k (client_value v) Hk) as [Ha He].
    rewrite Ha, He, IHa, IHe. split; reflexivity.
Qed.

End Separators.

(** X18: on every builder produced from the constructor by accessor
    calls the query string has exactly one [=] per eligible option and
    one [&] between two of them, whatever the stored values contain: a
    value cannot bring a separator of its own into the query string. *)
Theorem query_separators (b : builder) :
  reachable b ->
  let paramStr := paramStr_of (var_params b) in
  let n := List.length (eligible (var_params b)) in
  count_char "=" paramStr = n /\ count_char "&" paramStr = pred n.
Proof.
  intros Hr. cbv zeta.
  destruct (reachable_invariant b Hr) as [Hwf _].
  destruct (pairs_separators _ (reachable_stored b Hr)) as [Ha He].
  rewrite paramStr_of_spec by assumption. unfold query_string_spec.
  rewrite !count_char_join, Ha, He, !length_map.
  unfold client_params_spec. rewrite length_map. simpl. lia.
Qed.

Lemma query_separators_witness :
  count_char "="
    (paramStr_of
       (var_params (final (accessor Timeout (VStr "5m&x=1") sample_saved))))
  = 3
  /\ count_char "&"
       (paramStr_of
          (var_params
             (final (accessor Timeout (VStr "5m&x=1") sample_saved))))
     = 2.
Proof.
  exact (query_separators _
           (reach_option Timeout (VStr "5m&x=1") _ reachable_sample_saved)).
Defined.

(** ** Options cannot be unset *)

(** X19: no accessor call can unset an option: an option that is set
    stays set after any option accessor call and after any identity
    accessor call, whatever the argument, null included. *)
Theorem option_stays_set (b : builder) (k : string) :
  is_set (var_params b) k = true ->
  (forall o v, is_set (var_params (final (accessor o v b))) k = true)
  /\ (forall n v,
        is_set (var_params (final (identity_accessor n v b))) k = true).
Proof.
  unfold is_set. intros Hset. split.
  - intros o v.
    destruct (accessor_effect o v b) as [_ [_ [_ [_ Hp]]]].
    destruct Hp as [-> | [v' [Hv' ->]]]; [assumption |].
    destruct (String.eqb_spec (option_key o) k) as [<- | Hne].
    + now rewrite obj_get_set_same, Hv'.
    + now rewrite obj_get_set_other.
  - intros n v.
    destruct (identity_accessors_keep_params v b) as [Ei [Et Ed]].
    destruct n; cbn [identity_accessor]; now rewrite ?Ei, ?Et, ?Ed.
Qed.

Lemma option_stays_set_witness :
  is_set (var_params (final (accessor Routing VNull sample_saved)))
    "routing" = true.
Proof.
  exact (proj1 (option_stays_set sample_saved "routing" eq_refl)
           Routing VNull).
Defined.
